(** * seaavey/tools: the cooldown gate and the retrying request helpers

    A shallow embedding of two pieces of the repository:

    - [Cooldown] (class [Cooldown]: [find], [pushId], [hold], [check]),
      a table of timestamp records kept in an array and read with the wall
      clock;
    - [Fetcher] ([request] and [requestBuffer] of [src/Scripts/Siputzx.ts]),
      the two retry loops around [fetch] with a per-attempt abort timer.

    JavaScript numbers that hold milliseconds, attempt counters and HTTP status
    codes are modelled as integers ([Z]); strings are [string].  [retryCount]
    is a whole number in [Fetcher] and any rational in [AnyRetryCount]. *)

From stdpp Require Import base strings list pretty.
From Stdlib Require Import ZArith Lia.
From Stdlib.Strings Require Byte.
From Stdlib Require HexadecimalString.
From Stdlib Require QArith Qround.
From Stdlib.Strings Require Import Ascii.

Local Open Scope Z_scope.

(* ===================================================================== *)
(** * The cooldown gate *)
(* ===================================================================== *)

Module Cooldown.

(** [CooldownEntry] and [CooldownResult] of [../Types]. *)
Record CooldownEntry := { _id : string; timer : Z }.
Record CooldownResult := { state : bool }.

(** The mutable state a method sees: the array [this.cooldownList], and how
    many times [Date.now()] has been called so far.  Entries are objects
    shared between the array and the local variable [entry]; as no entry is
    ever removed or moved, the position in the array identifies the object. *)
Record World := { cooldownList : list CooldownEntry; reads : nat }.

(** [new Cooldown(cooldown)]: the table starts empty. *)
Definition init : World := {| cooldownList := []; reads := 0 |}.

(** Operations of the gate, for sequences of calls. *)
Inductive Op :=
| CallHold (id : string) (delay : option Z)
| CallCheck (id : string).

Section Instance.

(** The wall clock: [clock n] is what the [n]-th call of [Date.now()]
    returns.  Nothing is assumed about it; [Date.now()] follows the system
    clock, which may be stepped. *)
Variable clock : nat -> Z.

(** [this.cooldown], set once by the constructor. *)
Variable cooldown : Z.

(** State passing for the methods. *)
Definition M (A : Type) : Type := World -> A * World.

#[local] Instance M_ret : MRet M := fun A (a : A) w => (a, w).
#[local] Instance M_bind : MBind M :=
  fun A B (f : A -> M B) (m : M A) w => let '(a, w') := m w in f a w'.

(** [Date.now()] *)
Definition Date_now : M Z :=
  fun w => (clock (reads w),
            {| cooldownList := cooldownList w; reads := S (reads w) |}).

(** [this.cooldownList.find((entry) => entry._id === id)]: the first entry
    with that id, with its position (the reference to the object). *)
Definition find (id : string) : M (option (nat * CooldownEntry)) :=
  fun w => (list_find (fun entry => _id entry = id) (cooldownList w), w).

(** In-place update of the array [this.cooldownList]. *)
Definition modify (f : list CooldownEntry -> list CooldownEntry) : M unit :=
  fun w => (tt, {| cooldownList := f (cooldownList w); reads := reads w |}).

(** [this.cooldownList.push({ _id: id, timer: Date.now() })] *)
Definition pushId (id : string) : M unit :=
  now ← Date_now;
  modify (fun l => l ++ [{| _id := id; timer := now |}]).

(** [entry.timer = t], for the entry object at position [i]. *)
Definition set_timer (i : nat) (t : Z) : M unit :=
  modify (alter (fun entry => {| _id := _id entry; timer := t |}) i).

(** [hold(id, delay = 3000)] *)
Definition hold (id : string) (delay : option Z) : M CooldownResult :=
  let delay := default 3000 delay in
  entry ← find id;
  match entry with
  | None =>
      pushId id;;
      mret {| state := false |}
  | Some (i, entry) =>
      now1 ← Date_now;
      if bool_decide (now1 - timer entry < cooldown - delay) then
        mret {| state := true |}
      else
        now2 ← Date_now;
        if bool_decide (Z.max 0 (cooldown - delay - (now2 - timer entry)) < 15000) then
          now3 ← Date_now;
          set_timer i now3;;
          mret {| state := false |}
        else
          mret {| state := false |}
  end.

(** [check(id)] *)
Definition check (id : string) : M CooldownResult :=
  entry ← find id;
  match entry with
  | None => mret {| state := false |}
  | Some (_, entry) =>
      now1 ← Date_now;
      if bool_decide (now1 - timer entry < cooldown - 3000) then
        mret {| state := true |}
      else
        now2 ← Date_now;
        if bool_decide (Z.max 0 (cooldown - 3000 - (now2 - timer entry)) < 15000) then
          mret {| state := false |}
        else
          mret {| state := false |}
  end.

(** One call on the gate, and a sequence of calls. *)
Definition step (o : Op) : M CooldownResult :=
  match o with
  | CallHold id delay => hold id delay
  | CallCheck id => check id
  end.

Fixpoint run (ops : list Op) : M (list CooldownResult) :=
  match ops with
  | [] => mret []
  | o :: ops' =>
      r ← step o;
      rs ← run ops';
      mret (r :: rs)
  end.

(** [n] calls of [check] on the same key, one after the other. *)
Definition checks (id : string) (n : nat) : M (list CooldownResult) :=
  run (replicate n (CallCheck id)).

End Instance.

(** The ids in the table, in array order. *)
Definition keys (w : World) : list string := map _id (cooldownList w).

End Cooldown.

(* ===================================================================== *)
(** * The retrying request helpers *)
(* ===================================================================== *)

Module Fetcher.

(** A thrown JavaScript error object: only its [name] and [message] are
    looked at. *)
Record JsError := { name : string; message : string }.

(** [new Error(msg)] *)
Definition Error (msg : string) : JsError := {| name := "Error"; message := msg |}.

(** What [fetch] rejects with once [controller.abort()] has been called: a
    [DOMException] whose name is ["AbortError"]. *)
Definition AbortError : JsError :=
  {| name := "AbortError"; message := "This operation was aborted" |}.

(** What the console receives, and the calls of [fetch], in program order. *)
Inductive Event :=
| EvFetch (attempt : Z)
| EvWarn (msg : string) (arg : option JsError)
| EvError (msg : string).

(** How the body of the [try] block ends: [return data], [continue], or a
    thrown error (from [fetch], from reading the body, or from [throw]); or
    it does not end, when an [await] in it never resumes. *)
Inductive Completion (A : Type) :=
| Return (data : A)
| Continue
| Throw (error : JsError)
| Pending.
Arguments Return {A} data.
Arguments Continue {A}.
Arguments Throw {A} error.
Arguments Pending {A}.

(** The result of a whole call: the promise resolves ([Some (inr _)]),
    rejects ([Some (inl _)]) or never settles ([None]), after the events of
    [trace]. *)
Record Run (A : Type) := { outcome : option (JsError + A); trace : list Event }.
Arguments outcome {A} r.
Arguments trace {A} r.

(** The events [evs] happen, then the run [r]. *)
Definition after {A} (evs : list Event) (r : option (Run A)) : option (Run A) :=
  match r with
  | Some r => Some {| outcome := outcome r; trace := evs ++ trace r |}
  | None => None
  end.

(** The attempts at which [fetch] was called, in order. *)
Fixpoint fetches (tr : list Event) : list Z :=
  match tr with
  | [] => []
  | EvFetch attempt :: tr' => attempt :: fetches tr'
  | _ :: tr' => fetches tr'
  end.

(** [hay.includes(needle)] *)
Fixpoint includes (needle hay : string) : bool :=
  String.prefix needle hay ||
  match hay with
  | EmptyString => false
  | String _ hay' => includes needle hay'
  end.

Section Request.

(** The type [T] of the decoded JSON value. *)
Context {T : Type}.

(** The [Response] object, as far as the two functions read it.  Reading
    the body is asynchronous and may itself reject; the three fields say how
    a read settles once the body has arrived.  It happens after
    [clearTimeout(timeout)], so the timer plays no part in it. *)
Record Response := {
  status : Z;
  contentType : option string;       (* headers.get('Content-Type') *)
  text : JsError + string;           (* await response.text() *)
  json : JsError + T;                (* await response.json() *)
  arrayBuffer : JsError + list Byte.byte  (* await response.arrayBuffer() *)
}.

(** [response.ok]: the status is in the range 200-299. *)
Definition ok (response : Response) : bool :=
  (200 <=? status response) && (status response <=? 299).

(** How the promise of one [fetch] call settles on its own: it is
    fulfilled with a response whose body then arrives ([Fulfilled]), or with
    a response whose body never finishes arriving, so that every read of it
    stays pending ([Stalled]), or it is rejected. *)
Inductive Settlement :=
| Fulfilled (response : Response)
| Stalled (response : Response)
| Rejected (error : JsError).

(** What the network does with one [fetch] call: the promise settles
    [after] milliseconds, or never. *)
Inductive Exchange :=
| Settles (after : Z) (s : Settlement)
| Hangs.

(** The delay that [setTimeout(callback, timeoutMs)] uses (Node.js timers):
    a delay above 2147483647 or below 1 is set to 1. *)
Definition timer_delay (timeoutMs : Z) : Z :=
  if (1 <=? timeoutMs) && (timeoutMs <=? 2147483647) then timeoutMs else 1.

(** The call has not settled when the timer set with [timeoutMs] fires. *)
Definition timed_out (x : Exchange) (timeoutMs : Z) : bool :=
  match x with
  | Settles after _ => timer_delay timeoutMs <=? after
  | Hangs => true
  end.

(** [await fetch(url, { ..., signal: controller.signal })] with
    [setTimeout(() => controller.abort(), timeoutMs)] pending: if the timer
    fires first the signal aborts the call, which rejects with
    [AbortError]. *)
Definition await_fetch (x : Exchange) (timeoutMs : Z) : Settlement :=
  match x with
  | Settles after s => if timed_out x timeoutMs then Rejected AbortError else s
  | Hangs => Rejected AbortError
  end.

(** The url, method and body are the same at every attempt of a call, so
    the network is given by attempt number. *)
Variable network : Z -> Exchange.

Variable endpoint : string.
Variables retryCount timeoutMs : Z.

(** The [console.warn] of the [catch] block. *)
Definition warn_caught (attempt : Z) (error : JsError) : Event :=
  let isAbort := bool_decide (name error = "AbortError") in
  if isAbort then
    EvWarn ("Request timeout on attempt " +:+ pretty attempt +:+ ".") None
  else
    EvWarn ("Request failed on attempt " +:+ pretty attempt +:+ ":") (Some error).

(** [`API request to ${endpoint} failed after ${retryCount} attempts.`] *)
Definition failed_after : string :=
  "API request to " +:+ endpoint +:+ " failed after " +:+ pretty retryCount
    +:+ " attempts.".

(** [new Error(`HTTP error! Status: ${response.status}, Body: ${errorText}`)] *)
Definition http_error (status : Z) (errorText : string) : JsError :=
  Error ("HTTP error! Status: " +:+ pretty status +:+ ", Body: " +:+ errorText).

(** ** [request] *)

(** The [try] block of [request] at one attempt. *)
Definition request_try (attempt : Z) : Completion T :=
  match await_fetch (network attempt) timeoutMs with
  | Rejected error => Throw error
  | Fulfilled response =>
      if negb (ok response) then
        if (500 <=? status response) && (status response <? 600)
           && (attempt <? retryCount) then
          Continue
        else
          match text response with
          | inl error => Throw error
          | inr errorText => Throw (http_error (status response) errorText)
          end
      else
        match json response with
        | inl error => Throw error
        | inr data => Return data
        end
  | Stalled response =>
      if negb (ok response) then
        if (500 <=? status response) && (status response <? 600)
           && (attempt <? retryCount) then
          Continue
        else
          Pending                      (* await response.text() *)
      else
        Pending                        (* await response.json() *)
  end.

(** The [for] loop of [request] from [attempt] on, and the [throw] after
    it.  [fuel] bounds the number of loop tests. *)
Fixpoint request_loop (fuel : nat) (attempt : Z) : option (Run T) :=
  match fuel with
  | O => None
  | S fuel =>
      if attempt <=? retryCount then
        match request_try attempt with
        | Return data =>
            Some {| outcome := Some (inr data); trace := [EvFetch attempt] |}
        | Pending =>
            Some {| outcome := None; trace := [EvFetch attempt] |}
        | Continue =>
            after [EvFetch attempt;
                   EvWarn ("Retrying (" +:+ pretty attempt +:+ "/"
                             +:+ pretty retryCount +:+ ")...") None]
                  (request_loop fuel (attempt + 1))
        | Throw error =>
            let isLastAttempt := bool_decide (attempt = retryCount) in
            if isLastAttempt then
              Some {| outcome := Some (inl error);
                      trace := [EvFetch attempt; warn_caught attempt error;
                                EvError failed_after] |}
            else
              after [EvFetch attempt; warn_caught attempt error]
                    (request_loop fuel (attempt + 1))
        end
      else
        Some {| outcome := Some (inl (Error failed_after)); trace := [] |}
  end.

(** ** [requestBuffer] *)

(** The [try] block of [requestBuffer] at one attempt. *)
Definition requestBuffer_try (attempt : Z) : Completion (list Byte.byte) :=
  match await_fetch (network attempt) timeoutMs with
  | Rejected error => Throw error
  | Fulfilled response =>
      if negb (ok response) then
        if (500 <=? status response) && (status response <? 600)
           && (attempt <? retryCount) then
          Continue
        else
          match text response with
          | inl error => Throw error
          | inr errorText => Throw (http_error (status response) errorText)
          end
      else
        let contentType := default "" (contentType response) in
        if includes "application/octet-stream" contentType
           || includes "image/" contentType then
          match arrayBuffer response with
          | inl error => Throw error
          | inr buffer => Return buffer
          end
        else
          Throw (Error "Expected binary data but received non-binary response.")
  | Stalled response =>
      if negb (ok response) then
        if (500 <=? status response) && (status response <? 600)
           && (attempt <? retryCount) then
          Continue
        else
          Pending                      (* await response.text() *)
      else
        let contentType := default "" (contentType response) in
        if includes "application/octet-stream" contentType
           || includes "image/" contentType then
          Pending                      (* await response.arrayBuffer() *)
        else
          Throw (Error "Expected binary data but received non-binary response.")
  end.

(** The [for] loop of [requestBuffer] from [attempt] on, and the [throw]
    after it. *)
Fixpoint requestBuffer_loop (fuel : nat) (attempt : Z) : option (Run (list Byte.byte)) :=
  match fuel with
  | O => None
  | S fuel =>
      if attempt <=? retryCount then
        match requestBuffer_try attempt with
        | Return buffer =>
            Some {| outcome := Some (inr buffer); trace := [EvFetch attempt] |}
        | Pending =>
            Some {| outcome := None; trace := [EvFetch attempt] |}
        | Continue =>
            after [EvFetch attempt;
                   EvWarn ("Retrying (" +:+ pretty attempt +:+ "/"
                             +:+ pretty retryCount +:+ ")...") None]
                  (requestBuffer_loop fuel (attempt + 1))
        | Throw error =>
            let isLastAttempt := bool_decide (attempt = retryCount) in
            if isLastAttempt then
              Some {| outcome := Some (inl error);
                      trace := [EvFetch attempt; warn_caught attempt error;
                                EvError failed_after] |}
            else
              after [EvFetch attempt; warn_caught attempt error]
                    (requestBuffer_loop fuel (attempt + 1))
        end
      else
        Some {| outcome :=
                  Some (inl (Error "Unknown error occurred in request retry logic."));
                trace := [] |}
  end.

End Request.

Arguments Response : clear implicits.
Arguments Settlement : clear implicits.
Arguments Exchange : clear implicits.

(** [request<T>(endpoint, parameters, method, body, retryCount = 3,
    timeoutMs = 10000)].  The loop starts at attempt 1; it tests its
    condition at most [retryCount + 1] times. *)
Definition request {T} (network : Z -> Exchange T) (endpoint : string)
    (retryCount timeoutMs : option Z) : option (Run T) :=
  let retryCount := default 3 retryCount in
  let timeoutMs := default 10000 timeoutMs in
  request_loop network endpoint retryCount timeoutMs (S (Z.to_nat retryCount)) 1.

(** [requestBuffer(endpoint, parameters, method, body, retryCount = 3,
    timeoutMs = 10000)] *)
Definition requestBuffer {T} (network : Z -> Exchange T) (endpoint : string)
    (retryCount timeoutMs : option Z) : option (Run (list Byte.byte)) :=
  let retryCount := default 3 retryCount in
  let timeoutMs := default 10000 timeoutMs in
  requestBuffer_loop network endpoint retryCount timeoutMs (S (Z.to_nat retryCount)) 1.

(** The test of [requestBuffer] on the [Content-Type] of a 2xx response, and
    the error it throws when the test fails. *)
Definition binary_content (contentType : string) : bool :=
  includes "application/octet-stream" contentType || includes "image/" contentType.


(** The shape the two loops share: they differ in the [try] block and in the
    error thrown after the loop.  [request_loop] and [requestBuffer_loop] are
    shown equal to instances of it ([request_loop_shape],
    [requestBuffer_loop_shape]), so that facts about the loop are proved
    once. *)
Section Loop.

Context {A : Type}.
Variable try_block : Z -> Completion A.
Variable endpoint : string.
Variable retryCount : Z.
Variable after_loop : JsError.

Definition retrying (attempt : Z) : Event :=
  EvWarn ("Retrying (" +:+ pretty attempt +:+ "/" +:+ pretty retryCount +:+ ")...")
         None.

Fixpoint retry_loop (fuel : nat) (attempt : Z) : option (Run A) :=
  match fuel with
  | O => None
  | S fuel =>
      if attempt <=? retryCount then
        match try_block attempt with
        | Return data =>
            Some {| outcome := Some (inr data); trace := [EvFetch attempt] |}
        | Pending =>
            Some {| outcome := None; trace := [EvFetch attempt] |}
        | Continue =>
            after [EvFetch attempt; retrying attempt]
                  (retry_loop fuel (attempt + 1))
        | Throw error =>
            if bool_decide (attempt = retryCount) then
              Some {| outcome := Some (inl error);
                      trace := [EvFetch attempt; warn_caught attempt error;
                                EvError (failed_after endpoint retryCount)] |}
            else
              after [EvFetch attempt; warn_caught attempt error]
                    (retry_loop fuel (attempt + 1))
        end
      else
        Some {| outcome := Some (inl after_loop); trace := [] |}
  end.

End Loop.

(** The attempts from [first] on, [n] of them: [first, first + 1, ...]. *)
Fixpoint attempts_from (first : Z) (n : nat) : list Z :=
  match n with
  | O => []
  | S n => first :: attempts_from (first + 1) n
  end.

End Fetcher.


(* ===================================================================== *)
(** * Sample servers *)
(* ===================================================================== *)

(** Responses and networks on which the functions are run below; the decoded
    JSON value is a number. *)
Module Scenarios.
Import Fetcher.

Definition syntax_error : JsError :=
  {| name := "SyntaxError"; message := "Unexpected token in JSON" |}.

Definition resp404 : Response Z :=
  {| status := 404; contentType := Some "text/plain"; text := inr "Not Found";
     json := inl syntax_error; arrayBuffer := inr [] |}.

Definition resp503 : Response Z :=
  {| status := 503; contentType := Some "text/plain";
     text := inr "Service Unavailable";
     json := inl syntax_error; arrayBuffer := inr [] |}.

Definition resp200_json : Response Z :=
  {| status := 200; contentType := Some "application/json"; text := inr "42";
     json := inr 42; arrayBuffer := inr [Byte.x34; Byte.x32] |}.

Definition resp200_html : Response Z :=
  {| status := 200; contentType := Some "text/html"; text := inr "<p>";
     json := inl syntax_error; arrayBuffer := inr [Byte.x3c; Byte.x70; Byte.x3e] |}.

Definition resp200_png : Response Z :=
  {| status := 200; contentType := Some "image/png"; text := inr "";
     json := inl syntax_error; arrayBuffer := inr [Byte.x89; Byte.x50] |}.

(** Every call is answered by [response], after 20 ms. *)
Definition always (response : Response Z) : Z -> Exchange Z :=
  fun _ => Settles 20 (Fulfilled response).

(** The first call is answered by [first], the later ones by [later]. *)
Definition first_then (first later : Response Z) : Z -> Exchange Z :=
  fun attempt => Settles 20 (Fulfilled (if attempt =? 1 then first else later)).

(** No call is ever answered. *)
Definition silent : Z -> Exchange Z := fun _ => Hangs.

End Scenarios.

(* ===================================================================== *)
(** * The checksum of the general utilities *)
(* ===================================================================== *)

Module General.

(** ** 32-bit integer operators

    The operators [&], [^] and [<<] convert their operands with [ToInt32]
    (the shift count with [& 31]) and give a 32-bit signed integer. *)
Definition ToInt32 (z : Z) : Z := (z + 2 ^ 31) mod 2 ^ 32 - 2 ^ 31.
Definition band (a b : Z) : Z := Z.land (ToInt32 a) (ToInt32 b).
Definition bxor (a b : Z) : Z := Z.lxor (ToInt32 a) (ToInt32 b).
Definition shl (a n : Z) : Z := ToInt32 (Z.shiftl (ToInt32 a) (Z.land n 31)).

(** ** Strings

    [for (const char of str)] goes through the code points of [str]; a
    string is given here by that list of code points.  [char.charCodeAt(0)]
    is the first UTF-16 code unit of the code point: itself below 0x10000,
    the high surrogate above. *)
Definition charCodeAt0 (cp : Z) : Z :=
  if cp <? 0x10000 then cp else 0xD800 + Z.shiftr (cp - 0x10000) 10.

(** [n.toString(16)] for an integer [n >= 0] *)
Definition toString16 (n : Z) : string :=
  HexadecimalString.NilZero.string_of_uint (N.to_hex_uint (Z.to_N n)).

(** [s.toUpperCase()], for a string of hexadecimal digits *)
Definition upper (c : Ascii.ascii) : Ascii.ascii :=
  let n := Ascii.nat_of_ascii c in
  if ((97 <=? n) && (n <=? 122))%nat then Ascii.ascii_of_nat (n - 32) else c.

Fixpoint toUpperCase (s : string) : string :=
  match s with
  | EmptyString => EmptyString
  | String c s' => String (upper c) (toUpperCase s')
  end.

(** [s.padStart(n, c)] with a one-character filler *)
Fixpoint filler (n : nat) (c : Ascii.ascii) : string :=
  match n with
  | O => EmptyString
  | S n' => String c (filler n' c)
  end.

Definition padStart (n : nat) (c : Ascii.ascii) (s : string) : string :=
  filler (n - String.length s) c +:+ s.

(** ** [convertCRC16] *)

(** One turn of the inner loop:
    [crc = crc & 0x8000 ? (crc << 1) ^ 0x1021 : crc << 1]. *)
Definition crc_bit (crc : Z) : Z :=
  if negb (band crc 0x8000 =? 0) then bxor (shl crc 1) 0x1021 else shl crc 1.

(** [for (let i = 0; i < 8; i++) ...], [i] turns of it. *)
Fixpoint crc_bits (i : nat) (crc : Z) : Z :=
  match i with
  | O => crc
  | S i' => crc_bits i' (crc_bit crc)
  end.

(** The body of the outer loop for one character. *)
Definition crc_char (crc cp : Z) : Z :=
  crc_bits 8 (bxor crc (shl (charCodeAt0 cp) 8)).

(** The value of [crc] after the outer loop, from [let crc = 0xffff]. *)
Definition crc_of (str : list Z) : Z := fold_left crc_char str 0xffff.

Definition convertCRC16 (str : list Z) : string :=
  padStart 4 "0"%char (toUpperCase (toString16 (band (crc_of str) 0xffff))).

(** ** The 16-bit checksum, for comparison

    The CRC-16 with polynomial 0x1021 and initial value 0xFFFF, computed on
    16-bit registers over a list of bytes, most significant bit first. *)
Definition crc16_bit (reg : Z) : Z :=
  if Z.testbit reg 15 then Z.lxor ((2 * reg) mod 2 ^ 16) 0x1021
  else (2 * reg) mod 2 ^ 16.

Definition crc16_byte (reg byte : Z) : Z :=
  Nat.iter 8 crc16_bit (Z.lxor reg (byte * 2 ^ 8)).

Definition crc16_ccitt (bytes : list Z) : Z := fold_left crc16_byte bytes 0xffff.

(** The byte of a character that reaches the low 16 bits of [crc]. *)
Definition low_byte (cp : Z) : Z := charCodeAt0 cp mod 2 ^ 8.

(** The digit of value [d] in upper-case hexadecimal, and the four digits
    of a 16-bit value, most significant first. *)
Definition hex_digit (d : Z) : Ascii.ascii :=
  nth (Z.to_nat d) (String.list_ascii_of_string "0123456789ABCDEF") "?"%char.

Definition hex4 (v : Z) : string :=
  String (hex_digit (v / 4096))
    (String (hex_digit (v / 256 mod 16))
       (String (hex_digit (v / 16 mod 16))
          (String (hex_digit (v mod 16)) EmptyString))).

(** [f] holds of the [2 ^ k] integers from [base * 2 ^ k] on. *)
Fixpoint all_below (k : nat) (base : Z) (f : Z -> bool) : bool :=
  match k with
  | O => f base
  | S k' => all_below k' (2 * base) f && all_below k' (2 * base + 1) f
  end.

End General.

(* ===================================================================== *)
(** * More sample servers *)
(* ===================================================================== *)

Module MoreScenarios.
Import Fetcher.

(** What [fetch] rejects with when the connection cannot be made. *)
Definition fetch_failed : JsError := {| name := "TypeError"; message := "fetch failed" |}.

(** Every call fails at once with [fetch_failed]. *)
Definition unreachable : Z -> Exchange Z := fun _ => Settles 1 (Rejected fetch_failed).




End MoreScenarios.

(** A gate that tracks ["b"] since instant 0, and a clock that is stepped
    back after its first read. *)
Module GateScenarios.
Import Cooldown.



End GateScenarios.


(* ===================================================================== *)
(** * The request helpers with a [retryCount] that is any number *)
(* ===================================================================== *)

(** [retryCount: number] also admits a value that is not a whole number.
    Here [retryCount] is a rational; [attempt] stays a whole number, as the
    loop counts it from 1 in steps of 1.  On a whole [retryCount] the two
    functions are shown to be those of [Fetcher]. *)
Module AnyRetryCount.
Import Fetcher.
Import QArith_base.
Local Open Scope Z_scope.

Section Request.

Context {T : Type}.
Variable network : Z -> Exchange T.
Variable endpoint : string.
Variable retryCount : Q.
Variable timeoutMs : Z.

(** [`${retryCount}`], the decimal form of the number. *)
Variable toString : Q -> string.











End Request.


End AnyRetryCount.

(* ===================================================================== *)
(** * Properties of the cooldown gate *)
(* ===================================================================== *)

Module CooldownFacts.
Import Cooldown.

(** Unfolds the state passing of a method call. *)
Ltac run_M :=
  unfold hold, check, find, pushId, set_timer, modify, Date_now,
    mbind, M_bind, mret, M_ret; simpl.

(** Writing a field of the found entry keeps it the first entry with that
    id, at the same position. *)
Lemma list_find_alter {A} (P : A -> Prop) `{!forall x, Decision (P x)}
    (f : A -> A) (l : list A) (i : nat) (x : A) :
  list_find P l = Some (i, x) -> P (f x) ->
  list_find P (alter f i l) = Some (i, f x).
Proof.
  revert i. induction l as [|y l IH]; intros i Hfind Hf; [done|].
  simpl in Hfind. destruct (decide (P y)) as [Hy|Hy].
  - inversion Hfind; subst. simpl. by rewrite decide_True.
  - destruct (list_find P l) as [[j z]|] eqn:E; [|done].
    simpl in Hfind. inversion Hfind; subst. simpl.
    rewrite decide_False by done.
    pose proof (IH j eq_refl Hf) as IH'. unfold alter in IH'. by rewrite IH'.
Qed.

Lemma list_find_id (id : string) (l : list CooldownEntry) i entry :
  list_find (fun e => _id e = id) l = Some (i, entry) ->
  l !! i = Some entry /\ _id entry = id.
Proof. intros H. apply list_find_Some in H. destruct H as (Hi & Hid & _). done. Qed.

Lemma keys_alter_timer (t : Z) (i : nat) (l : list CooldownEntry) :
  map _id (alter (fun entry => {| _id := _id entry; timer := t |}) i l) = map _id l.
Proof.
  revert i. induction l as [|y l IH]; intros [|i]; simpl; try done.
  f_equal. apply IH.
Qed.

Lemma alter_timer_insert (t : Z) (i : nat) (l : list CooldownEntry) entry :
  l !! i = Some entry ->
  alter (fun entry => {| _id := _id entry; timer := t |}) i l
  = <[i := {| _id := _id entry; timer := t |}]> l.
Proof.
  revert i. induction l as [|y l IH]; intros [|i] H; simpl in *; try done.
  - by inversion H.
  - f_equal. by apply IH.
Qed.

(** [check] leaves the array as it is. *)
Lemma check_table clock cooldown id w :
  cooldownList (check clock cooldown id w).2 = cooldownList w.
Proof.
  run_M. destruct (list_find _ _) as [[i entry]|]; [|done].
  repeat case_bool_decide; done.
Qed.

(** [check] on a key without a record answers [{state: false}]. *)
Lemma check_untracked clock cooldown id w :
  (find id w).1 = None -> (check clock cooldown id w).1 = {| state := false |}.
Proof. run_M. intros ->. done. Qed.

(** [hold] keeps the ids pairwise different. *)
Lemma hold_keys_NoDup clock cooldown id delay w :
  NoDup (keys w) -> NoDup (keys (hold clock cooldown id delay w).2).
Proof.
  unfold keys. run_M. intros Hnd.
  destruct (list_find _ _) as [[i entry]|] eqn:Hfind; simpl.
  - repeat case_bool_decide; simpl; try done.
    by rewrite keys_alter_timer.
  - rewrite map_app. simpl. apply NoDup_app. split; [done|]. split.
    + intros x Hx Hx'. apply list_elem_of_singleton in Hx'. subst x.
      apply list_elem_of_fmap in Hx as [e [He Hin]].
      apply list_find_None in Hfind. rewrite Forall_forall in Hfind.
      apply (Hfind e); done.
    + apply NoDup_singleton.
Qed.

Lemma step_keys_NoDup clock cooldown op w :
  NoDup (keys w) -> NoDup (keys (step clock cooldown op w).2).
Proof.
  destruct op as [id delay|id]; simpl.
  - apply hold_keys_NoDup.
  - unfold keys. by rewrite check_table.
Qed.

Lemma run_keys_NoDup clock cooldown ops w :
  NoDup (keys w) -> NoDup (keys (run clock cooldown ops w).2).
Proof.
  revert w. induction ops as [|op ops IH]; intros w Hnd; [done|].
  simpl. unfold mbind, M_bind.
  pose proof (step_keys_NoDup clock cooldown op w Hnd) as Hs.
  destruct (step clock cooldown op w) as [r w1]. simpl in Hs.
  specialize (IH w1 Hs). destruct (run clock cooldown ops w1) as [rs w2].
  done.
Qed.

(** The four ways through [hold]. *)
Lemma hold_untracked clock cooldown id delay w :
  (find id w).1 = None ->
  hold clock cooldown id delay w
  = ({| state := false |},
     {| cooldownList := cooldownList w ++ [{| _id := id; timer := clock (reads w) |}];
        reads := S (reads w) |}).
Proof. unfold find. simpl. intros Hfind. run_M. by rewrite Hfind. Qed.

Lemma hold_held clock cooldown id delay w i entry :
  (find id w).1 = Some (i, entry) ->
  clock (reads w) - timer entry < cooldown - default 3000 delay ->
  hold clock cooldown id delay w
  = ({| state := true |},
     {| cooldownList := cooldownList w; reads := S (reads w) |}).
Proof.
  unfold find. simpl. intros Hfind Hin. run_M. rewrite Hfind.
  by rewrite bool_decide_true by lia.
Qed.

Lemma hold_renew clock cooldown id delay w i entry :
  (find id w).1 = Some (i, entry) ->
  ~ clock (reads w) - timer entry < cooldown - default 3000 delay ->
  Z.max 0 (cooldown - default 3000 delay - (clock (S (reads w)) - timer entry)) < 15000 ->
  hold clock cooldown id delay w
  = ({| state := false |},
     {| cooldownList :=
          <[i := {| _id := id; timer := clock (S (S (reads w))) |}]> (cooldownList w);
        reads := S (S (S (reads w))) |}).
Proof.
  unfold find. simpl. intros Hfind Hpast Hnear.
  run_M. rewrite Hfind.
  destruct (list_find_id _ _ _ _ Hfind) as [Hi Hid].
  rewrite bool_decide_false by lia. simpl.
  rewrite bool_decide_true by lia. simpl.
  rewrite (alter_timer_insert _ _ _ _ Hi). by rewrite Hid.
Qed.

Lemma hold_fallback clock cooldown id delay w i entry :
  (find id w).1 = Some (i, entry) ->
  ~ clock (reads w) - timer entry < cooldown - default 3000 delay ->
  ~ Z.max 0 (cooldown - default 3000 delay - (clock (S (reads w)) - timer entry)) < 15000 ->
  hold clock cooldown id delay w
  = ({| state := false |},
     {| cooldownList := cooldownList w; reads := S (S (reads w)) |}).
Proof.
  unfold find. simpl. intros Hfind Hpast Hfar.
  run_M. rewrite Hfind.
  rewrite bool_decide_false by lia. simpl.
  by rewrite bool_decide_false by lia.
Qed.

(** Two [hold] calls on the same key with no time passing in between (every
    clock read gives the same instant): the second one finds the key held and
    changes nothing, whatever the table was before the first. *)
Lemma hold_twice clock cooldown id delay w now :
  (forall n, clock n = now) ->
  0 < cooldown - default 3000 delay ->
  let w1 := (hold clock cooldown id delay w).2 in
  hold clock cooldown id delay w1
  = ({| state := true |},
     {| cooldownList := cooldownList w1; reads := S (reads w1) |}).
Proof.
  intros Hclock Hpos w1. subst w1.
  destruct (find id w).1 as [[i entry]|] eqn:Hfind.
  - destruct (decide (clock (reads w) - timer entry < cooldown - default 3000 delay))
      as [Hin|Hout].
    + rewrite (hold_held _ _ _ _ _ _ _ Hfind Hin). cbn [snd].
      apply (hold_held _ _ _ _ _ i entry);
        [exact Hfind | simpl; rewrite !Hclock in *; lia].
    + assert (Hnear : Z.max 0 (cooldown - default 3000 delay
                                 - (clock (S (reads w)) - timer entry)) < 15000)
        by (rewrite !Hclock in *; lia).
      rewrite (hold_renew _ _ _ _ _ _ _ Hfind Hout Hnear). cbn [snd].
      unfold find in Hfind. simpl in Hfind.
      destruct (list_find_id _ _ _ _ Hfind) as [Hi Hid].
      apply (hold_held _ _ _ _ _ i {| _id := id; timer := clock (S (S (reads w))) |}).
      * unfold find. simpl. subst id.
        rewrite <- (alter_timer_insert _ _ _ _ Hi).
        by apply (list_find_alter _ (fun e => {| _id := _id e; timer := _ |})).
      * simpl. rewrite !Hclock. lia.
  - rewrite (hold_untracked _ _ _ _ _ Hfind). cbn [snd].
    unfold find in Hfind. simpl in Hfind.
    apply (hold_held _ _ _ _ _ (length (cooldownList w))
             {| _id := id; timer := clock (reads w) |}).
    + unfold find. simpl. rewrite list_find_app_r by done. simpl.
      rewrite decide_True by done. done.
    + simpl. rewrite !Hclock. lia.
Qed.




(** C5: when the entry of [id] exists, the first clock read of [hold] is past
    the strict window, and the floored remaining time computed from the second
    clock read is at least 15000, [hold] answers [{state: false}] and the table
    is left as it was: nothing is appended and no [timer] is written. *)
Theorem hold_fallback_no_mutation clock cooldown id delay w i entry :
  (find id w).1 = Some (i, entry) ->
  clock (reads w) - timer entry >= cooldown - default 3000 delay ->
  Z.max 0 (cooldown - default 3000 delay - (clock (S (reads w)) - timer entry)) >= 15000 ->
  hold clock cooldown id delay w
  = ({| state := false |},
     {| cooldownList := cooldownList w; reads := S (S (reads w)) |}).
Proof.
  intros Hfind Hpast Hfar.
  apply (hold_fallback _ _ _ _ _ i entry); [done|lia|lia].
Qed.

(** The clock is stepped back between the two reads of the call. *)
Lemma hold_fallback_no_mutation_witness :
  let clock := fun n => match n with O => 100000 | _ => 0 end in
  let entry := {| _id := "b"; timer := 0 |} in
  let w := {| cooldownList := [entry]; reads := 0 |} in
  (find "b" w).1 = Some (0%nat, entry)
  /\ clock (reads w) - timer entry >= 20000 - default 3000 None
  /\ Z.max 0 (20000 - default 3000 None - (clock (S (reads w)) - timer entry)) >= 15000
  /\ hold clock 20000 "b" None w
     = ({| state := false |}, {| cooldownList := [entry]; reads := 2 |}).
Proof.
  intros clock entry w.
  assert (H1 : (find "b" w).1 = Some (0%nat, entry)) by reflexivity.
  assert (H2 : clock (reads w) - timer entry >= 20000 - default 3000 None)
    by (unfold clock, entry, w; simpl; lia).
  assert (H3 : Z.max 0 (20000 - default 3000 None
                         - (clock (S (reads w)) - timer entry)) >= 15000)
    by (unfold clock, entry, w; simpl; lia).
  split; [exact H1|]. split; [exact H2|]. split; [exact H3|].
  exact (hold_fallback_no_mutation clock 20000 "b" None w 0%nat entry H1 H2 H3).
Defined.

(** C8: when the entry of [id] exists and the clock read of [hold] is within
    the strict window ([now - entry.timer < cooldown - delay]), [hold] answers
    [{state: true}] and the table is left as it was.  And with
    [cooldown = 10000] and the default delay, a [hold] that follows another
    [hold] on the same key with no time passing in between answers
    [{state: true}] and leaves the table as the first call left it. *)
Theorem hold_held_no_mutation :
  (forall clock cooldown id delay w i entry,
      (find id w).1 = Some (i, entry) ->
      clock (reads w) - timer entry < cooldown - default 3000 delay ->
      hold clock cooldown id delay w
      = ({| state := true |},
         {| cooldownList := cooldownList w; reads := S (reads w) |}))
  /\ (forall clock id w now,
        (forall n, clock n = now) ->
        let w1 := (hold clock 10000 id None w).2 in
        (hold clock 10000 id None w1).1 = {| state := true |}
        /\ cooldownList (hold clock 10000 id None w1).2 = cooldownList w1).
Proof.
  split.
  - intros clock cooldown id delay w i entry. apply hold_held.
  - intros clock id w now Hclock w1. subst w1.
    rewrite (hold_twice clock 10000 id None w now Hclock); [done|simpl; lia].
Qed.

Lemma hold_held_no_mutation_witness :
  let clock := fun _ : nat => 5000 in
  let entry := {| _id := "b"; timer := 4000 |} in
  let w := {| cooldownList := [entry]; reads := 0 |} in
  ((find "b" w).1 = Some (0%nat, entry)
   /\ clock (reads w) - timer entry < 10000 - default 3000 None
   /\ hold clock 10000 "b" None w
      = ({| state := true |}, {| cooldownList := [entry]; reads := 1 |}))
  /\ ((forall n, clock n = 5000)
      /\ (hold clock 10000 "b" None (hold clock 10000 "b" None init).2).1
         = {| state := true |}
      /\ cooldownList (hold clock 10000 "b" None (hold clock 10000 "b" None init).2).2
         = [{| _id := "b"; timer := 5000 |}]).
Proof.
  intros clock entry w.
  assert (H1 : (find "b" w).1 = Some (0%nat, entry)) by reflexivity.
  assert (H2 : clock (reads w) - timer entry < 10000 - default 3000 None)
    by (unfold clock, entry, w; simpl; lia).
  assert (H3 : forall n, clock n = 5000) by reflexivity.
  split.
  - split; [exact H1|]. split; [exact H2|].
    exact (proj1 hold_held_no_mutation clock 10000 "b" None w 0%nat entry H1 H2).
  - split; [assumption|].
    exact (proj2 hold_held_no_mutation clock "b" init 5000 H3).
Defined.

(** C9: [check] never appends to the table nor writes an entry, for any key
    and any table; any number of [check] calls in a row leave the table as it
    was, and on a key without an entry they all answer [{state: false}] and
    the key still has no entry.  A call that changes the table is a [hold]. *)
Theorem check_never_mutates :
  (forall clock cooldown id w,
      cooldownList (check clock cooldown id w).2 = cooldownList w)
  /\ (forall clock cooldown id n w,
        cooldownList (checks clock cooldown id n w).2 = cooldownList w
        /\ ((find id w).1 = None ->
            (checks clock cooldown id n w).1 = replicate n {| state := false |}
            /\ (find id (checks clock cooldown id n w).2).1 = None))
  /\ (forall clock cooldown op w,
        cooldownList (step clock cooldown op w).2 <> cooldownList w ->
        exists id delay, op = CallHold id delay).
Proof.
  split; [exact check_table|]. split.
  - intros clock cooldown id n. unfold checks.
    induction n as [|n IH]; intros w; [done|].
    simpl. unfold mbind, M_bind.
    pose proof (check_table clock cooldown id w) as Ht.
    pose proof (check_untracked clock cooldown id w) as Hu.
    destruct (check clock cooldown id w) as [r w1]. simpl in Ht, Hu.
    destruct (IH w1) as [IHt IHu].
    destruct (run clock cooldown (replicate n (CallCheck id)) w1) as [rs w2].
    simpl in *. split; [congruence|].
    intros Hnone. rewrite Hu by done.
    rewrite Ht in IHu. destruct (IHu Hnone) as [-> Hw2]. done.
  - intros clock cooldown [id delay|id] w Hchg; [by eauto|].
    simpl in Hchg. by rewrite check_table in Hchg.
Qed.

Lemma check_never_mutates_witness :
  let clock := fun _ : nat => 5000 in
  ((find "a" init).1 = None
   /\ (checks clock 10000 "a" 3 init).1 = replicate 3 {| state := false |}
   /\ (find "a" (checks clock 10000 "a" 3 init).2).1 = None)
  /\ (cooldownList (step clock 10000 (CallHold "a" None) init).2 <> cooldownList init
      /\ exists id delay, CallHold "a" None = CallHold id delay).
Proof.
  intros clock.
  assert (H1 : (find "a" init).1 = None) by reflexivity.
  assert (H2 : cooldownList (step clock 10000 (CallHold "a" None) init).2
               <> cooldownList init) by (simpl; discriminate).
  split.
  - split; [assumption|].
    exact (proj2 (proj1 (proj2 check_never_mutates) clock 10000 "a" 3%nat init) H1).
  - split; [assumption|].
    exact (proj2 (proj2 check_never_mutates) clock 10000 (CallHold "a" None) init H2).
Defined.

(** C10: after any sequence of [hold] and [check] calls on a new gate, the
    ids of the entries in the table are pairwise different: a key has at most
    one entry.  And a call that makes the table grow is a [hold] on a key
    that had no entry, which appends the one entry of that key. *)
Theorem keys_unique :
  (forall clock cooldown (ops : list Op),
      NoDup (keys (run clock cooldown ops init).2))
  /\ (forall clock cooldown op w,
        length (cooldownList (step clock cooldown op w).2) <> length (cooldownList w) ->
        exists id delay,
          op = CallHold id delay
          /\ (find id w).1 = None
          /\ cooldownList (step clock cooldown op w).2
             = cooldownList w ++ [{| _id := id; timer := clock (reads w) |}]).
Proof.
  split.
  - intros clock cooldown ops. apply run_keys_NoDup. apply NoDup_nil_2.
  - intros clock cooldown [id delay|id] w; simpl.
    + destruct (find id w).1 as [[i entry]|] eqn:Hfind.
      * destruct (decide (clock (reads w) - timer entry < cooldown - default 3000 delay))
          as [Hin|Hout].
        { rewrite (hold_held _ _ _ _ _ _ _ Hfind Hin). done. }
        destruct (decide (Z.max 0 (cooldown - default 3000 delay
                                   - (clock (S (reads w)) - timer entry)) < 15000))
          as [Hnear|Hfar].
        { rewrite (hold_renew _ _ _ _ _ _ _ Hfind Hout Hnear). simpl.
          rewrite length_insert. done. }
        rewrite (hold_fallback _ _ _ _ _ _ _ Hfind Hout Hfar). done.
      * rewrite (hold_untracked _ _ _ _ _ Hfind). intros _.
        exists id, delay. done.
    + rewrite check_table. done.
Qed.

Lemma keys_unique_witness :
  let clock := fun _ : nat => 5000 in
  length (cooldownList (step clock 10000 (CallHold "a" None) init).2)
    <> length (cooldownList init)
  /\ exists id delay,
      CallHold "a" None = CallHold id delay
      /\ (find id init).1 = None
      /\ cooldownList (step clock 10000 (CallHold "a" None) init).2
         = cooldownList init ++ [{| _id := id; timer := clock (reads init) |}].
Proof.
  intros clock.
  assert (H1 : length (cooldownList (step clock 10000 (CallHold "a" None) init).2)
               <> length (cooldownList init)) by (simpl; discriminate).
  split; [exact H1|].
  exact (proj2 keys_unique clock 10000 (CallHold "a" None) init H1).
Defined.

End CooldownFacts.

(* ===================================================================== *)
(** * Properties of the retrying request helpers *)
(* ===================================================================== *)

Module FetcherFacts.
Import Fetcher.

(** ** The attempts of a trace *)

Lemma fetches_app (tr1 tr2 : list Event) :
  fetches (tr1 ++ tr2) = fetches tr1 ++ fetches tr2.
Proof.
  induction tr1 as [|[attempt|msg arg|msg] tr1 IH]; simpl; [done| |done|done].
  by rewrite IH.
Qed.

Lemma fetches_warn_caught attempt error tr :
  fetches (warn_caught attempt error :: tr) = fetches tr.
Proof. unfold warn_caught. by case_bool_decide. Qed.

Lemma fetches_fetch attempt tr : fetches (EvFetch attempt :: tr) = attempt :: fetches tr.
Proof. reflexivity. Qed.

Lemma fetches_warn msg arg tr : fetches (EvWarn msg arg :: tr) = fetches tr.
Proof. reflexivity. Qed.

Lemma fetches_error msg tr : fetches (EvError msg :: tr) = fetches tr.
Proof. reflexivity. Qed.

Lemma fetches_nil : fetches [] = [].
Proof. reflexivity. Qed.

#[local] Arguments fetches : simpl never.

Create Rewrite HintDb fetches.
#[local] Hint Rewrite fetches_app fetches_fetch fetches_warn_caught fetches_warn
  fetches_error fetches_nil : fetches.

Lemma attempts_from_snoc (first : Z) (n : nat) :
  attempts_from first n ++ [first + Z.of_nat n] = attempts_from first (S n).
Proof.
  revert first. induction n as [|n IH]; intros first.
  - simpl. by rewrite Z.add_0_r.
  - transitivity (first :: (attempts_from (first + 1) n ++ [first + 1 + Z.of_nat n])).
    + simpl. do 3 f_equal. lia.
    + by rewrite IH.
Qed.

Lemma attempts_from_length first n : length (attempts_from first n) = n.
Proof. revert first; induction n as [|n IH]; intros first; simpl; by rewrite ?IH. Qed.

Lemma elem_of_attempts_from (first : Z) (n : nat) (b : Z) :
  b ∈ attempts_from first n <-> first <= b < first + Z.of_nat n.
Proof.
  revert first. induction n as [|n IH]; intros first; simpl.
  - rewrite elem_of_nil. lia.
  - rewrite elem_of_cons, IH. lia.
Qed.

(** ** The loop *)

Section LoopFacts.

Context {A : Type}.
Variable try_block : Z -> Completion A.
Variable endpoint : string.
Variable retryCount : Z.
Variable after_loop : JsError.

Abbreviation loop := (retry_loop try_block endpoint retryCount after_loop).

Lemma after_Some (evs : list Event) (o : option (Run A)) (r : Run A) :
  after evs o = Some r ->
  exists r1, o = Some r1 /\ r = {| outcome := outcome r1; trace := evs ++ trace r1 |}.
Proof. destruct o as [r1|]; simpl; [|done]. intros [= <-]. eauto. Qed.

(** The loop always comes to an end: [fuel] beyond the number of loop tests
    left is enough. *)
Lemma loop_total (fuel : nat) (attempt : Z) :
  (Z.to_nat (retryCount + 1 - attempt) < fuel)%nat -> is_Some (loop fuel attempt).
Proof.
  revert attempt. induction fuel as [|fuel IH]; intros attempt Hfuel; [lia|].
  simpl. destruct (attempt <=? retryCount) eqn:Htest; [|by eauto].
  apply Z.leb_le in Htest.
  assert (Hnext : is_Some (loop fuel (attempt + 1))) by (apply IH; lia).
  destruct Hnext as [r1 Hr1].
  destruct (try_block attempt);
    [by eauto| |case_bool_decide; [by eauto|]|by eauto];
    rewrite Hr1; simpl; eauto.
Qed.

(** One iteration, inverted: the run ends in it without a log (it returns,
    or an [await] of it never resumes), or it throws on the last attempt, or
    it goes on to the next attempt after one warning. *)
Lemma loop_step (fuel : nat) (attempt : Z) (r : Run A) :
  loop (S fuel) attempt = Some r -> attempt <= retryCount ->
  (exists o, (try_block attempt = Pending /\ o = None
              \/ exists data, try_block attempt = Return data /\ o = Some (inr data))
             /\ r = {| outcome := o; trace := [EvFetch attempt] |})
  \/ (exists error, try_block attempt = Throw error /\ attempt = retryCount
                    /\ r = {| outcome := Some (inl error);
                              trace := [EvFetch attempt; warn_caught attempt error;
                                        EvError (failed_after endpoint retryCount)] |})
  \/ (exists w r1,
         (try_block attempt = Continue /\ w = retrying retryCount attempt
          \/ exists error, try_block attempt = Throw error
                           /\ attempt <> retryCount /\ w = warn_caught attempt error)
         /\ loop fuel (attempt + 1) = Some r1
         /\ r = {| outcome := outcome r1; trace := EvFetch attempt :: w :: trace r1 |}).
Proof.
  intros Hrun Hle. simpl in Hrun.
  rewrite (proj2 (Z.leb_le _ _) Hle) in Hrun.
  destruct (try_block attempt) as [data| |error|] eqn:Htry.
  - left. exists (Some (inr data)). split; [right; by exists data|]. by inversion Hrun.
  - right. right. apply after_Some in Hrun as (r1 & Hr1 & ->).
    exists (retrying retryCount attempt), r1. eauto.
  - case_bool_decide as Hlast.
    + right. left. exists error. repeat split; [done|]. by inversion Hrun.
    + right. right. apply after_Some in Hrun as (r1 & Hr1 & ->).
      exists (warn_caught attempt error), r1. split; [|done].
      right. exists error. done.
  - left. exists None. split; [by left|]. by inversion Hrun.
Qed.

(** The warning of an iteration that goes on is not a [fetch]. *)
Lemma fetches_going_on attempt w tr :
  (try_block attempt = Continue /\ w = retrying retryCount attempt
   \/ exists error, try_block attempt = Throw error
                    /\ attempt <> retryCount /\ w = warn_caught attempt error) ->
  fetches (EvFetch attempt :: w :: tr) = attempt :: fetches tr.
Proof.
  intros [[_ ->]|(error & _ & _ & ->)]; by autorewrite with fetches.
Qed.

(** After the last attempt the loop is left without a [fetch]. *)
Lemma loop_past (fuel : nat) (attempt : Z) (r : Run A) :
  loop fuel attempt = Some r -> retryCount < attempt ->
  r = {| outcome := Some (inl after_loop); trace := [] |}.
Proof.
  destruct fuel as [|fuel]; [done|]. simpl. intros Hrun Hgt.
  rewrite (proj2 (Z.leb_gt _ _) Hgt) in Hrun. by inversion Hrun.
Qed.

(** An iteration starts with its [fetch]. *)
Lemma loop_head (fuel : nat) (attempt : Z) (r : Run A) :
  loop fuel attempt = Some r -> attempt <= retryCount ->
  exists tr, trace r = EvFetch attempt :: tr.
Proof.
  destruct fuel as [|fuel]; [done|]. intros Hrun Hle.
  destruct (loop_step _ _ _ Hrun Hle)
    as [(o & _ & ->)|[(error & _ & _ & ->)|(w & r1 & _ & _ & ->)]];
    simpl; eauto.
Qed.

(** The attempts made are consecutive, and none is past [retryCount]. *)
Lemma loop_fetches (fuel : nat) (attempt : Z) (r : Run A) :
  loop fuel attempt = Some r ->
  exists n : nat, fetches (trace r) = attempts_from attempt n
                  /\ Z.of_nat n <= Z.max 0 (retryCount + 1 - attempt).
Proof.
  revert attempt r. induction fuel as [|fuel IH]; intros attempt r Hrun; [done|].
  destruct (Z.le_gt_cases attempt retryCount) as [Hle|Hgt].
  - destruct (loop_step _ _ _ Hrun Hle)
      as [(o & _ & ->)|[(error & _ & _ & ->)|(w & r1 & Hw & Hr1 & ->)]].
    + exists 1%nat. simpl. split; [done|lia].
    + exists 1%nat. simpl. autorewrite with fetches. split; [done|lia].
    + destruct (IH _ _ Hr1) as (n & Hn & Hbound).
      exists (S n). simpl trace. rewrite (fetches_going_on _ _ _ Hw), Hn.
      split; [done|lia].
  - rewrite (loop_past _ _ _ Hrun Hgt). exists 0%nat. simpl. split; [done|lia].
Qed.

(** A run that makes attempt [b] passes through the iteration of [b]: what
    comes before are the attempts up to [b - 1], what comes after is the
    run of the loop from [b]. *)
Lemma loop_reach (fuel : nat) (attempt : Z) (r : Run A) (b : Z) :
  loop fuel attempt = Some r -> b ∈ fetches (trace r) ->
  attempt <= b <= retryCount
  /\ exists fuel' r' pre,
      loop (S fuel') b = Some r'
      /\ trace r = pre ++ trace r'
      /\ outcome r = outcome r'
      /\ fetches pre = attempts_from attempt (Z.to_nat (b - attempt)).
Proof.
  revert attempt r. induction fuel as [|fuel IH]; intros attempt r Hrun Hb; [done|].
  destruct (Z.le_gt_cases attempt retryCount) as [Hle|Hgt];
    [|rewrite (loop_past _ _ _ Hrun Hgt) in Hb; simpl in Hb;
      by apply elem_of_nil in Hb].
  destruct (decide (b = attempt)) as [->|Hne].
  { split; [lia|]. exists fuel, r, []. rewrite Z.sub_diag. done. }
  destruct (loop_step _ _ _ Hrun Hle)
    as [(o & _ & ->)|[(error & _ & _ & ->)|(w & r1 & Hw & Hr1 & ->)]].
  - simpl in Hb. apply list_elem_of_singleton in Hb. done.
  - simpl in Hb. autorewrite with fetches in Hb.
    apply list_elem_of_singleton in Hb. done.
  - simpl trace in Hb. rewrite (fetches_going_on _ _ _ Hw) in Hb.
    apply elem_of_cons in Hb as [Hb|Hb]; [done|].
    destruct (IH _ _ Hr1 Hb) as (Hrange & fuel' & r' & pre & Hr' & Htr & Hout & Hpre).
    split; [lia|]. exists fuel', r', (EvFetch attempt :: w :: pre).
    split; [done|]. split; [simpl; by rewrite Htr|]. split; [done|].
    rewrite (fetches_going_on _ _ _ Hw), Hpre.
    replace (Z.to_nat (b - attempt)) with (S (Z.to_nat (b - (attempt + 1)))) by lia.
    done.
Qed.

(** The attempt at which the [try] block returns is the last one, and its
    value is the result. *)
Lemma loop_return_at (fuel : nat) (attempt : Z) (r : Run A) (b : Z) (data : A) :
  loop fuel attempt = Some r -> b ∈ fetches (trace r) ->
  try_block b = Return data ->
  outcome r = Some (inr data)
  /\ fetches (trace r) = attempts_from attempt (Z.to_nat (b - attempt + 1)).
Proof.
  intros Hrun Hb Htry.
  destruct (loop_reach _ _ _ _ Hrun Hb)
    as (Hrange & fuel' & r' & pre & Hr' & Htr & Hout & Hpre).
  destruct (loop_step _ _ _ Hr' (proj2 Hrange))
    as [(o & [[Htry' _]|(data' & Htry' & ->)] & ->)
       |[(error & Htry' & _)|(w & r1 & Hw & _)]].
  - congruence.
  - rewrite Htry in Htry'. inversion Htry'; subst data'.
    split; [by rewrite Hout|].
    rewrite Htr, fetches_app, Hpre. simpl.
    replace (Z.to_nat (b - attempt + 1)) with (S (Z.to_nat (b - attempt))) by lia.
    rewrite <- attempts_from_snoc. autorewrite with fetches.
    do 2 f_equal. lia.
  - congruence.
  - destruct Hw as [[Htry' _]|(error & Htry' & _)]; congruence.
Qed.

(** The attempt at which the [try] block throws: the [catch] block warns,
    then rethrows on the last attempt and otherwise lets the loop go on to
    the next attempt. *)
Lemma loop_throw_at (fuel : nat) (attempt : Z) (r : Run A) (b : Z) error :
  loop fuel attempt = Some r -> b ∈ fetches (trace r) ->
  try_block b = Throw error ->
  warn_caught b error ∈ trace r
  /\ (b < retryCount -> (b + 1) ∈ fetches (trace r))
  /\ (b = retryCount -> outcome r = Some (inl error)).
Proof.
  intros Hrun Hb Htry.
  destruct (loop_reach _ _ _ _ Hrun Hb)
    as (Hrange & fuel' & r' & pre & Hr' & Htr & Hout & Hpre).
  rewrite Htr, Hout, fetches_app.
  destruct (loop_step _ _ _ Hr' (proj2 Hrange))
    as [(o & [[Htry' _]|(data' & Htry' & _)] & _)
       |[(error' & Htry' & Hlast & ->)|(w & r1 & Hw & Hr1 & ->)]].
  - congruence.
  - congruence.
  - rewrite Htry in Htry'. inversion Htry'; subst error'. simpl.
    split; [|split; [lia|done]].
    apply elem_of_app. right. apply elem_of_cons. right. apply elem_of_cons. by left.
  - destruct Hw as [[Htry' _]|(error' & Htry' & Hnotlast & ->)]; [congruence|].
    rewrite Htry in Htry'. inversion Htry'; subst error'. simpl trace.
    split; [|split; [|done]].
    + apply elem_of_app. right. apply elem_of_cons. right. apply elem_of_cons. by left.
    + intros Hlt. apply elem_of_app. right.
      destruct (loop_head _ _ _ Hr1 ltac:(lia)) as [tr ->].
      autorewrite with fetches.
      apply elem_of_cons. right. apply elem_of_cons. by left.
Qed.


End LoopFacts.

(** ** The two loops have that shape *)

Lemma request_loop_shape {T} (network : Z -> Exchange T) endpoint retryCount
    timeoutMs fuel attempt :
  request_loop network endpoint retryCount timeoutMs fuel attempt
  = retry_loop (request_try network retryCount timeoutMs) endpoint retryCount
      (Error (failed_after endpoint retryCount)) fuel attempt.
Proof.
  revert attempt. induction fuel as [|fuel IH]; intros attempt; [done|].
  simpl. destruct (attempt <=? retryCount); [|done].
  destruct (request_try _ _ _ _); rewrite ?IH; done.
Qed.

Lemma requestBuffer_loop_shape {T} (network : Z -> Exchange T) endpoint retryCount
    timeoutMs fuel attempt :
  requestBuffer_loop network endpoint retryCount timeoutMs fuel attempt
  = retry_loop (requestBuffer_try network retryCount timeoutMs) endpoint retryCount
      (Error "Unknown error occurred in request retry logic.") fuel attempt.
Proof.
  revert attempt. induction fuel as [|fuel IH]; intros attempt; [done|].
  simpl. destruct (attempt <=? retryCount); [|done].
  destruct (requestBuffer_try _ _ _ _); rewrite ?IH; done.
Qed.

(** The fuel given to the loops is enough: both functions have a run, which
    ends with a value or an error, or stays pending on a body that does not
    arrive. *)
Lemma request_total {T} (network : Z -> Exchange T) endpoint retryCount timeoutMs :
  is_Some (request network endpoint retryCount timeoutMs).
Proof.
  unfold request. rewrite request_loop_shape. apply loop_total. lia.
Qed.

Lemma requestBuffer_total {T} (network : Z -> Exchange T) endpoint retryCount
    timeoutMs :
  is_Some (requestBuffer network endpoint retryCount timeoutMs).
Proof.
  unfold requestBuffer. rewrite requestBuffer_loop_shape. apply loop_total. lia.
Qed.

(** ** The [try] blocks *)

Section TryFacts.

Context {T : Type}.
Variable network : Z -> Exchange T.
Variables retryCount timeoutMs : Z.

Lemma await_fetch_timed_out attempt :
  timed_out (network attempt) timeoutMs = true ->
  await_fetch (network attempt) timeoutMs = Rejected AbortError.
Proof.
  unfold await_fetch. destruct (network attempt) as [ms s|]; [|done].
  by intros ->.
Qed.

Lemma request_try_timed_out attempt :
  timed_out (network attempt) timeoutMs = true ->
  request_try network retryCount timeoutMs attempt = Throw AbortError.
Proof. intros H. unfold request_try. by rewrite await_fetch_timed_out. Qed.

Lemma requestBuffer_try_timed_out attempt :
  timed_out (network attempt) timeoutMs = true ->
  requestBuffer_try network retryCount timeoutMs attempt = Throw AbortError.
Proof. intros H. unfold requestBuffer_try. by rewrite await_fetch_timed_out. Qed.

Lemma request_try_ok attempt response data :
  await_fetch (network attempt) timeoutMs = Fulfilled response ->
  ok response = true -> json response = inr data ->
  request_try network retryCount timeoutMs attempt = Return data.
Proof. intros Hf Hok Hjson. unfold request_try. by rewrite Hf, Hok, Hjson. Qed.



End TryFacts.



(** ** The claims on [request] and [requestBuffer] *)

Import Scenarios MoreScenarios.

(** C1, on the code: a 404 at every attempt with [retryCount = 5].  The
    error thrown for the 404 inside the [try] block is caught by the [catch]
    block of the same iteration, which rethrows on the last attempt only:
    [fetch] is called 5 times, in [request] and in [requestBuffer]. *)
Theorem not_found_is_retried :
  (fun r => (outcome r, fetches (trace r)))
    <$> request (always resp404) "ai/llama33" (Some 5) None
  = Some (Some (inl (http_error 404 "Not Found")), [1; 2; 3; 4; 5])
  /\ (fun r => (outcome r, fetches (trace r)))
       <$> requestBuffer (always resp404) "ai/dreamshaper" (Some 5) None
     = Some (Some (inl (http_error 404 "Not Found")), [1; 2; 3; 4; 5]).
Proof. split; vm_compute; reflexivity. Qed.







(** C6, as stated, fails: attempt 1 of 2 is answered in time by a 200
    response whose body is not JSON; [response.json()] rejects, the [catch]
    block logs the failure and attempt 2 is made. *)
Lemma undecodable_2xx_does_not_end_the_sequence :
  await_fetch (first_then resp200_html resp200_json 1) 10000 = Fulfilled resp200_html
  /\ ok resp200_html = true
  /\ request (first_then resp200_html resp200_json) "ai/llama33" (Some 2) None
     = Some {| outcome := Some (inr 42);
               trace := [EvFetch 1;
                         EvWarn "Request failed on attempt 1:" (Some syntax_error);
                         EvFetch 2] |}.
Proof. repeat split; vm_compute; reflexivity. Qed.

(** C6, amended: a call of [request] makes at most [retryCount] attempts;
    and when an attempt is answered in time by a 2xx response whose body
    decodes to [data], the call resolves with [data] and that attempt is the
    last one: the attempts made are [1, ..., b], none after [b]. *)
Theorem request_bounded_and_short_circuits {T} (network : Z -> Exchange T)
    (endpoint : string) (retryCount timeoutMs : option Z) :
  exists r, request network endpoint retryCount timeoutMs = Some r
    /\ Z.of_nat (length (fetches (trace r))) <= Z.max 0 (default 3 retryCount)
    /\ forall b response data,
         b ∈ fetches (trace r) ->
         await_fetch (network b) (default 10000 timeoutMs) = Fulfilled response ->
         ok response = true ->
         json response = inr data ->
         outcome r = Some (inr data)
         /\ fetches (trace r) = attempts_from 1 (Z.to_nat b)
         /\ forall c, c ∈ fetches (trace r) -> c <= b.
Proof.
  destruct (request_total network endpoint retryCount timeoutMs) as [r Hr].
  exists r. split; [done|].
  unfold request in Hr. cbv zeta in Hr. rewrite request_loop_shape in Hr. split.
  - destruct (loop_fetches _ _ _ _ _ _ _ Hr) as (n & -> & Hn).
    rewrite attempts_from_length. lia.
  - intros b response data Hb Hf Hok Hjson.
    pose proof (request_try_ok network (default 3 retryCount) _ _ _ _ Hf Hok Hjson)
      as Htry.
    destruct (loop_return_at _ _ _ _ _ _ _ _ _ Hr Hb Htry) as [Hout Hfs].
    replace (Z.to_nat (b - 1 + 1)) with (Z.to_nat b) in Hfs by lia.
    split; [done|]. split; [done|].
    intros c Hc. rewrite Hfs in Hc. apply elem_of_attempts_from in Hc.
    rewrite Hfs in Hb. apply elem_of_attempts_from in Hb. lia.
Qed.

(** Attempt 1 is answered by a 503, attempt 2 by a 200: there is no third
    attempt. *)
Lemma request_bounded_and_short_circuits_witness :
  exists r, request (first_then resp503 resp200_json) "ai/llama33" (Some 3) None = Some r
    /\ 2 ∈ fetches (trace r)
    /\ await_fetch (first_then resp503 resp200_json 2) (default 10000 None)
       = Fulfilled resp200_json
    /\ ok resp200_json = true
    /\ json resp200_json = inr 42
    /\ outcome r = Some (inr 42)
    /\ fetches (trace r) = [1; 2]
    /\ forall c, c ∈ fetches (trace r) -> c <= 2.
Proof.
  destruct (request_bounded_and_short_circuits
              (first_then resp503 resp200_json) "ai/llama33" (Some 3) None)
    as (r & Hr & _ & Hat).
  exists r. split; [exact Hr|].
  assert (H1 : 2 ∈ fetches (trace r)).
  { pose proof Hr as Hv. vm_compute in Hv. injection Hv as <-.
    apply elem_of_cons. right. apply elem_of_cons. by left. }
  assert (H2 : await_fetch (first_then resp503 resp200_json 2) (default 10000 None)
               = Fulfilled resp200_json) by reflexivity.
  assert (H3 : ok resp200_json = true) by reflexivity.
  assert (H4 : json resp200_json = inr 42) by reflexivity.
  split; [exact H1|]. split; [exact H2|]. split; [exact H3|]. split; [exact H4|].
  exact (Hat 2 resp200_json 42 H1 H2 H3 H4).
Defined.





End FetcherFacts.

(* ===================================================================== *)
(** * Properties of the checksum *)
(* ===================================================================== *)

Module GeneralFacts.
Import General.

(** ** The low 16 bits of the 32-bit operators *)

Lemma ToInt32_mod16 (z : Z) : ToInt32 z mod 2 ^ 16 = z mod 2 ^ 16.
Proof.
  unfold ToInt32.
  pose proof (Z.div_mod (z + 2 ^ 31) (2 ^ 32) ltac:(lia)) as Hdm.
  replace ((z + 2 ^ 31) mod 2 ^ 32 - 2 ^ 31)
    with (z + (- ((z + 2 ^ 31) / 2 ^ 32) * 2 ^ 16) * 2 ^ 16) by lia.
  apply Z_mod_plus_full.
Qed.

Lemma lxor_mod16 (a b : Z) :
  Z.lxor a b mod 2 ^ 16 = Z.lxor (a mod 2 ^ 16) (b mod 2 ^ 16).
Proof.
  apply Z.bits_inj'. intros n Hn.
  rewrite Z.lxor_spec, !Z.testbit_mod_pow2, Z.lxor_spec by lia.
  by destruct (n <? 16).
Qed.

Lemma bxor_mod16 (a b : Z) :
  bxor a b mod 2 ^ 16 = Z.lxor (a mod 2 ^ 16) (b mod 2 ^ 16).
Proof. unfold bxor. by rewrite lxor_mod16, !ToInt32_mod16. Qed.

Lemma shl_mod16 (a n : Z) :
  0 <= n < 32 -> shl a n mod 2 ^ 16 = (a * 2 ^ n) mod 2 ^ 16.
Proof.
  intros Hn. unfold shl. rewrite ToInt32_mod16.
  replace (Z.land n 31) with n.
  - rewrite Z.shiftl_mul_pow2 by lia.
    rewrite <- Z.mul_mod_idemp_l, ToInt32_mod16, Z.mul_mod_idemp_l by lia. done.
  - change 31 with (Z.ones 5). rewrite Z.land_ones by lia.
    symmetry. apply Z.mod_small. change (2 ^ 5) with 32. lia.
Qed.

Lemma band_ffff (a : Z) : band a 0xffff = a mod 2 ^ 16.
Proof.
  unfold band. change (ToInt32 0xffff) with (Z.ones 16).
  rewrite Z.land_ones by lia. apply ToInt32_mod16.
Qed.

Lemma band_8000 (a : Z) :
  (band a 0x8000 =? 0) = negb (Z.testbit (a mod 2 ^ 16) 15).
Proof.
  unfold band. change (ToInt32 0x8000) with (2 ^ 15).
  assert (Hbit : Z.testbit (a mod 2 ^ 16) 15 = Z.testbit (ToInt32 a) 15).
  { rewrite <- ToInt32_mod16. apply Z.mod_pow2_bits_low. lia. }
  rewrite Hbit.
  assert (Hland : Z.land (ToInt32 a) (2 ^ 15)
                  = if Z.testbit (ToInt32 a) 15 then 2 ^ 15 else 0).
  { apply Z.bits_inj'. intros n Hn. rewrite Z.land_spec.
    destruct (decide (n = 15)) as [->|Hne].
    - rewrite Z.pow2_bits_true, andb_true_r by lia.
      destruct (Z.testbit (ToInt32 a) 15); [by rewrite Z.pow2_bits_true by lia|].
      by rewrite Z.bits_0.
    - rewrite Z.pow2_bits_false, andb_false_r by lia.
      destruct (Z.testbit (ToInt32 a) 15); [by rewrite Z.pow2_bits_false by lia|].
      by rewrite Z.bits_0. }
  rewrite Hland. by destruct (Z.testbit (ToInt32 a) 15).
Qed.

(** ** The loops keep the 16-bit register in the low bits of [crc] *)

Lemma crc_bit_mod16 (crc : Z) : crc_bit crc mod 2 ^ 16 = crc16_bit (crc mod 2 ^ 16).
Proof.
  unfold crc_bit, crc16_bit. rewrite band_8000, negb_involutive.
  destruct (Z.testbit (crc mod 2 ^ 16) 15).
  - rewrite bxor_mod16, shl_mod16 by lia. change (2 ^ 1) with 2.
    rewrite (Z.mul_comm crc 2). rewrite <- (Z.mul_mod_idemp_r 2 crc) by lia. done.
  - rewrite shl_mod16 by lia. change (2 ^ 1) with 2.
    rewrite (Z.mul_comm crc 2). rewrite <- (Z.mul_mod_idemp_r 2 crc) by lia. done.
Qed.

#[local] Opaque crc_bit crc16_bit.

Lemma crc_bits_mod16 (i : nat) (crc : Z) :
  crc_bits i crc mod 2 ^ 16 = Nat.iter i crc16_bit (crc mod 2 ^ 16).
Proof.
  revert crc. induction i as [|i IH]; intros crc; [done|].
  simpl crc_bits. rewrite IH, crc_bit_mod16. by rewrite Nat.iter_succ_r.
Qed.

Lemma crc_char_mod16 (crc cp : Z) :
  crc_char crc cp mod 2 ^ 16 = crc16_byte (crc mod 2 ^ 16) (low_byte cp).
Proof.
  unfold crc_char, crc16_byte, low_byte.
  rewrite crc_bits_mod16, bxor_mod16, shl_mod16 by lia.
  change ((charCodeAt0 cp * 2 ^ 8) mod 2 ^ 16)
    with ((charCodeAt0 cp * 2 ^ 8) mod (2 ^ 8 * 2 ^ 8)).
  rewrite Z.mul_mod_distr_r by lia. reflexivity.
Qed.

Lemma fold_left_step {A B} (f : A -> B -> A) (x : B) (l : list B) (a : A) :
  fold_left f (x :: l) a = fold_left f l (f a x).
Proof. reflexivity. Qed.

#[local] Opaque crc_char crc16_byte.

Lemma crc_fold_mod16 (str : list Z) (crc : Z) :
  fold_left crc_char str crc mod 2 ^ 16
  = fold_left crc16_byte (map low_byte str) (crc mod 2 ^ 16).
Proof.
  revert crc. induction str as [|cp str IH]; intros crc; [reflexivity|].
  rewrite map_cons, !fold_left_step, IH.
  by rewrite crc_char_mod16.
Qed.

(** ** The four digits *)

Lemma all_below_spec (k : nat) (base : Z) (f : Z -> bool) :
  all_below k base f = true ->
  forall v, base * 2 ^ Z.of_nat k <= v < (base + 1) * 2 ^ Z.of_nat k -> f v = true.
Proof.
  revert base. induction k as [|k IH]; intros base Hall v Hv.
  - simpl in *. by replace v with base by lia.
  - simpl in Hall. apply andb_true_iff in Hall as [Hlo Hhi].
    rewrite Nat2Z.inj_succ, Z.pow_succ_r in Hv by lia.
    destruct (Z.lt_ge_cases v ((2 * base + 1) * 2 ^ Z.of_nat k)).
    + apply (IH _ Hlo). lia.
    + apply (IH _ Hhi). lia.
Qed.

Lemma format_16_bits (v : Z) :
  0 <= v < 2 ^ 16 ->
  padStart 4 "0"%char (toUpperCase (toString16 v)) = hex4 v.
Proof.
  intros Hv.
  assert (Hall : all_below 16 0
            (fun v => bool_decide
               (padStart 4 "0"%char (toUpperCase (toString16 v)) = hex4 v)) = true)
    by (vm_compute; reflexivity).
  pose proof (all_below_spec _ _ _ Hall v) as H.
  apply bool_decide_eq_true in H; [done|]. change (2 ^ Z.of_nat 16) with (2 ^ 16). lia.
Qed.

Lemma hex_digit_upper (d : Z) :
  0 <= d < 16 ->
  In (hex_digit d) (String.list_ascii_of_string "0123456789ABCDEF").
Proof.
  intros Hd. unfold hex_digit. apply nth_In. simpl. lia.
Qed.

(** The result, from the 16-bit checksum of the low bytes. *)
Lemma convertCRC16_hex4 (str : list Z) :
  band (crc_of str) 0xffff = crc16_ccitt (map low_byte str)
  /\ 0 <= band (crc_of str) 0xffff < 2 ^ 16
  /\ convertCRC16 str = hex4 (crc16_ccitt (map low_byte str)).
Proof.
  assert (Hval : band (crc_of str) 0xffff = crc16_ccitt (map low_byte str)).
  { rewrite band_ffff. unfold crc_of, crc16_ccitt. apply crc_fold_mod16. }
  assert (Hrange : 0 <= band (crc_of str) 0xffff < 2 ^ 16).
  { rewrite band_ffff. apply Z.mod_pos_bound. lia. }
  split; [done|]. split; [done|].
  unfold convertCRC16. rewrite (format_16_bits _ Hrange). by rewrite Hval.
Qed.

(** X1: the unmasked 32-bit computation of [convertCRC16] gives the CRC-16
    with polynomial 0x1021 and initial value 0xFFFF of the low bytes of the
    characters' first code units: the masked value [crc & 0xffff] is that
    checksum, and the string returned is its four hexadecimal digits. *)
Theorem convertCRC16_is_crc16_ccitt (str : list Z) :
  band (crc_of str) 0xffff = crc16_ccitt (map low_byte str)
  /\ convertCRC16 str = hex4 (crc16_ccitt (map low_byte str)).
Proof. destruct (convertCRC16_hex4 str) as (Hval & _ & Hstr). done. Qed.

(** X2: [convertCRC16] always returns exactly four characters, each of them
    one of [0-9A-F]. *)
Theorem convertCRC16_four_hex_digits (str : list Z) :
  String.length (convertCRC16 str) = 4%nat
  /\ Forall (fun c => In c (String.list_ascii_of_string "0123456789ABCDEF"))
            (String.list_ascii_of_string (convertCRC16 str)).
Proof.
  destruct (convertCRC16_hex4 str) as (Hval & Hrange & ->).
  rewrite <- Hval. set (v := band (crc_of str) 0xffff) in *.
  split; [reflexivity|]. unfold hex4. simpl String.list_ascii_of_string.
  change (2 ^ 16) with 65536 in Hrange.
  repeat apply Forall_cons_2; [..|apply Forall_nil_2]; apply hex_digit_upper.
  - split; [apply Z.div_pos; lia|apply Z.div_lt_upper_bound; lia].
  - apply Z.mod_pos_bound. lia.
  - apply Z.mod_pos_bound. lia.
  - apply Z.mod_pos_bound. lia.
Qed.

(** X3: only the low byte of each character's first code unit reaches the
    checksum: two strings whose characters agree on that byte get the same
    result. *)
Theorem convertCRC16_low_bytes_only (s1 s2 : list Z) :
  map low_byte s1 = map low_byte s2 -> convertCRC16 s1 = convertCRC16 s2.
Proof.
  intros Hlow.
  destruct (convertCRC16_hex4 s1) as (_ & _ & ->).
  destruct (convertCRC16_hex4 s2) as (_ & _ & ->).
  by rewrite Hlow.
Qed.

(** "A" (U+0041) and "Ł" (U+0141). *)
Lemma convertCRC16_low_bytes_only_witness :
  map low_byte [0x41] = map low_byte [0x141]
  /\ convertCRC16 [0x41] = convertCRC16 [0x141].
Proof.
  assert (H1 : map low_byte [0x41] = map low_byte [0x141]) by reflexivity.
  split; [exact H1|].
  exact (convertCRC16_low_bytes_only [0x41] [0x141] H1).
Defined.

End GeneralFacts.

(* ===================================================================== *)
(** * More on the cooldown gate *)
(* ===================================================================== *)

Module CooldownMore.
Import Cooldown CooldownFacts.

(** The case of [hold] that applies, with the world it leads to. *)
Lemma hold_cases clock cooldown id delay w :
  let d := default 3000 delay in
  ((find id w).1 = None
   /\ hold clock cooldown id delay w
      = ({| state := false |},
         {| cooldownList := cooldownList w ++ [{| _id := id; timer := clock (reads w) |}];
            reads := S (reads w) |}))
  \/ (exists i entry,
        (find id w).1 = Some (i, entry)
        /\ clock (reads w) - timer entry < cooldown - d
        /\ hold clock cooldown id delay w
           = ({| state := true |},
              {| cooldownList := cooldownList w; reads := S (reads w) |}))
  \/ (exists i entry,
        (find id w).1 = Some (i, entry)
        /\ ~ clock (reads w) - timer entry < cooldown - d
        /\ Z.max 0 (cooldown - d - (clock (S (reads w)) - timer entry)) < 15000
        /\ hold clock cooldown id delay w
           = ({| state := false |},
              {| cooldownList :=
                   <[i := {| _id := id; timer := clock (S (S (reads w))) |}]>
                     (cooldownList w);
                 reads := S (S (S (reads w))) |}))
  \/ (exists i entry,
        (find id w).1 = Some (i, entry)
        /\ ~ clock (reads w) - timer entry < cooldown - d
        /\ ~ Z.max 0 (cooldown - d - (clock (S (reads w)) - timer entry)) < 15000
        /\ hold clock cooldown id delay w
           = ({| state := false |},
              {| cooldownList := cooldownList w; reads := S (S (reads w)) |})).
Proof.
  intros d. destruct (find id w).1 as [[i entry]|] eqn:Hfind.
  - right. destruct (decide (clock (reads w) - timer entry < cooldown - d)) as [Hin|Hout].
    { left. exists i, entry. split; [done|]. split; [done|]. by apply (hold_held _ _ _ _ _ i entry). }
    right.
    destruct (decide (Z.max 0 (cooldown - d - (clock (S (reads w)) - timer entry)) < 15000))
      as [Hnear|Hfar].
    + left. exists i, entry. repeat (split; [done|]). by apply (hold_renew _ _ _ _ _ _ entry).
    + right. exists i, entry. repeat (split; [done|]). by apply (hold_fallback _ _ _ _ _ i entry).
  - left. split; [done|]. by apply hold_untracked.
Qed.

(** The world after [check]: the table as it was, the clock read once or
    twice. *)
Lemma check_world clock cooldown id w :
  cooldownList (check clock cooldown id w).2 = cooldownList w
  /\ (reads w <= reads (check clock cooldown id w).2)%nat.
Proof.
  split; [apply check_table|].
  run_M. destruct (list_find _ _) as [[i entry]|]; simpl; [|lia].
  repeat case_bool_decide; simpl; lia.
Qed.

(** Writing an entry that the search does not stop at leaves the search as
    it was. *)
Lemma list_find_insert_other {A} (P : A -> Prop) `{!forall x, Decision (P x)}
    (l : list A) (i : nat) (x y : A) :
  l !! i = Some x -> ~ P x -> ~ P y -> list_find P (<[i := y]> l) = list_find P l.
Proof.
  revert i. induction l as [|z l IH]; intros [|i] Hi Hx Hy; simpl in *; try done.
  - inversion Hi; subst z. by rewrite !decide_False by done.
  - destruct (decide (P z)); [done|]. by rewrite (IH i).
Qed.

(** A property of the table that every call keeps holds after any sequence
    of calls. *)
Lemma run_invariant clock cooldown (I : World -> Prop) :
  (forall op w, I w -> I (step clock cooldown op w).2) ->
  forall ops w, I w -> I (run clock cooldown ops w).2.
Proof.
  intros Hstep ops. induction ops as [|op ops IH]; intros w Hw; [done|].
  simpl. unfold mbind, M_bind.
  pose proof (Hstep op w Hw) as Hs.
  destruct (step clock cooldown op w) as [r w1]. simpl in Hs.
  specialize (IH w1 Hs). destruct (run clock cooldown ops w1) as [rs w2].
  done.
Qed.

(** X4: [check] answers what [hold] with the default delay would answer at
    the same clock reading, for any key and any table. *)
Theorem check_agrees_with_hold clock cooldown id w :
  (check clock cooldown id w).1 = (hold clock cooldown id None w).1.
Proof.
  run_M. destruct (list_find _ _) as [[i entry]|]; simpl; [|done].
  repeat case_bool_decide; done.
Qed.

(** X5: no call removes or moves an entry: after any sequence of [hold] and
    [check] calls the ids in the table are the ids that were there, in the
    same order, followed by the ids added since. *)
Theorem table_only_grows clock cooldown (ops : list Op) (w : World) :
  exists added, keys (run clock cooldown ops w).2 = keys w ++ added.
Proof.
  apply (run_invariant clock cooldown (fun w' => exists added, keys w' = keys w ++ added));
    [|exists []; by rewrite app_nil_r].
  intros [id delay|id] w0 [added Hw0]; simpl.
  - destruct (hold_cases clock cooldown id delay w0)
      as [[_ ->]|[(i & e & _ & _ & ->)|[(i & e & Hf & _ & _ & ->)|(i & e & _ & _ & _ & ->)]]];
      unfold keys in *; simpl.
    + exists (added ++ [id]). by rewrite map_app, Hw0, <- app_assoc.
    + by exists added.
    + exists added. rewrite <- Hw0.
      destruct (list_find_id _ _ _ _ Hf) as [Hi Hid].
      rewrite <- Hid, <- (alter_timer_insert _ _ _ _ Hi). apply keys_alter_timer.
    + by exists added.
  - exists added. unfold keys in *. by rewrite check_table.
Qed.

(** X6: when the clock does not go back, a [hold] that answers
    [{state: false}] arms the window: the next [hold] on the same key, made
    less than [cooldown - delay] after the first one started, answers
    [{state: true}]. *)
Theorem grant_then_throttled clock cooldown id delay w :
  (forall n m, (n <= m)%nat -> clock n <= clock m) ->
  (hold clock cooldown id delay w).1 = {| state := false |} ->
  clock (reads (hold clock cooldown id delay w).2) - clock (reads w)
    < cooldown - default 3000 delay ->
  (hold clock cooldown id delay (hold clock cooldown id delay w).2).1
  = {| state := true |}.
Proof.
  intros Hmono.
  destruct (hold_cases clock cooldown id delay w)
    as [[Hf ->]|[(i & e & _ & _ & ->)|[(i & e & Hf & Hout & _ & ->)|(i & e & Hf & Hout & Hfar & ->)]]];
    cbn [fst snd reads]; intros Hst Hsoon; [|done| |].
  - unfold find in Hf. simpl in Hf.
    rewrite (hold_held _ _ _ _ _ (length (cooldownList w))
               {| _id := id; timer := clock (reads w) |}); [done| |simpl; lia].
    unfold find. simpl. rewrite list_find_app_r by done. simpl.
    by rewrite decide_True by done.
  - unfold find in Hf. simpl in Hf.
    destruct (list_find_id _ _ _ _ Hf) as [Hi Hid].
    rewrite (hold_held _ _ _ _ _ i {| _id := id; timer := clock (S (S (reads w))) |});
      [done| |].
    + unfold find. simpl. subst id.
      rewrite <- (alter_timer_insert _ _ _ _ Hi).
      by apply (list_find_alter _ (fun e0 => {| _id := _id e0; timer := _ |})).
    + simpl. pose proof (Hmono (reads w) (S (S (reads w))) ltac:(lia)). lia.
  - pose proof (Hmono (reads w) (S (reads w)) ltac:(lia)). lia.
Qed.

Lemma grant_then_throttled_witness :
  let clock := fun n : nat => 1000 * Z.of_nat n in
  (forall n m, (n <= m)%nat -> clock n <= clock m)
  /\ (hold clock 10000 "b" None init).1 = {| state := false |}
  /\ clock (reads (hold clock 10000 "b" None init).2) - clock (reads init)
     < 10000 - default 3000 None
  /\ (hold clock 10000 "b" None (hold clock 10000 "b" None init).2).1
     = {| state := true |}.
Proof.
  intros clock.
  assert (H1 : forall n m, (n <= m)%nat -> clock n <= clock m)
    by (intros n m Hnm; unfold clock; lia).
  assert (H2 : (hold clock 10000 "b" None init).1 = {| state := false |})
    by reflexivity.
  assert (H3 : clock (reads (hold clock 10000 "b" None init).2) - clock (reads init)
               < 10000 - default 3000 None) by (unfold clock; simpl; lia).
  split; [exact H1|]. split; [exact H2|]. split; [exact H3|].
  exact (grant_then_throttled clock 10000 "b" None init H1 H2 H3).
Defined.

(** X7: [hold] on a key does not touch the other keys: the entry found for
    any other id, and its position, are the same before and after. *)
Theorem hold_leaves_other_keys clock cooldown id delay w id' :
  id' <> id ->
  (find id' (hold clock cooldown id delay w).2).1 = (find id' w).1.
Proof.
  intros Hne.
  destruct (hold_cases clock cooldown id delay w)
    as [[Hf ->]|[(i & e & _ & _ & ->)|[(i & e & Hf & _ & _ & ->)|(i & e & _ & _ & _ & ->)]]];
    unfold find; simpl; try done.
  - destruct (list_find (fun entry => _id entry = id') (cooldownList w))
      as [[j e']|] eqn:Hf'.
    + by apply list_find_app_l.
    + rewrite list_find_app_r by done. simpl. by rewrite decide_False by done.
  - unfold find in Hf. simpl in Hf.
    destruct (list_find_id _ _ _ _ Hf) as [Hi Hid].
    apply (list_find_insert_other _ _ _ e); [done|congruence|simpl; congruence].
Qed.

Lemma hold_leaves_other_keys_witness :
  let clock := fun n : nat => 50000 + Z.of_nat n in
  let w := {| cooldownList := [{| _id := "a"; timer := 0 |}; {| _id := "b"; timer := 7 |}];
              reads := 0 |} in
  "b" <> "a"
  /\ (find "b" (hold clock 10000 "a" None w).2).1
     = Some (1%nat, {| _id := "b"; timer := 7 |}).
Proof.
  intros clock w.
  assert (H1 : "b" <> "a") by discriminate.
  split; [exact H1|].
  exact (hold_leaves_other_keys clock 10000 "a" None w "b" H1).
Defined.

(** X8: every [timer] in the table of a gate is a value that [Date.now()]
    returned during an earlier call: after any sequence of calls on a new
    gate, each entry's [timer] is one of the clock reads made so far. *)
Theorem timers_are_clock_reads clock cooldown (ops : list Op) :
  let w := (run clock cooldown ops init).2 in
  Forall (fun entry => exists n, (n < reads w)%nat /\ timer entry = clock n)
         (cooldownList w).
Proof.
  apply (run_invariant clock cooldown
           (fun w => Forall (fun entry => exists n, (n < reads w)%nat /\ timer entry = clock n)
                            (cooldownList w))); [|apply Forall_nil_2].
  intros op w Hw.
  assert (Hweak : forall k, (reads w <= k)%nat ->
            Forall (fun entry => exists n, (n < k)%nat /\ timer entry = clock n)
                   (cooldownList w)).
  { intros k Hk. eapply Forall_impl; [exact Hw|].
    intros e (n & Hn & He). exists n. split; [lia|done]. }
  destruct op as [id delay|id]; simpl.
  - destruct (hold_cases clock cooldown id delay w)
      as [[Hf ->]|[(i & e & _ & _ & ->)|[(i & e & Hf & _ & _ & ->)|(i & e & _ & _ & _ & ->)]]];
      simpl.
    + apply Forall_app. split; [apply Hweak; lia|].
      apply Forall_singleton. exists (reads w). simpl. split; [lia|done].
    + apply Hweak. lia.
    + apply Forall_insert; [apply Hweak; lia|].
      exists (S (S (reads w))). simpl. split; [lia|done].
    + apply Hweak. lia.
  - destruct (check_world clock cooldown id w) as [Ht Hr].
    rewrite Ht. apply Hweak. done.
Qed.

End CooldownMore.

(* ===================================================================== *)
(** * More on the retrying request helpers *)
(* ===================================================================== *)

Module FetcherMore.
Import Fetcher FetcherFacts Scenarios MoreScenarios.

#[local] Arguments fetches : simpl never.
#[local] Hint Rewrite fetches_app fetches_fetch fetches_warn_caught fetches_warn
  fetches_error fetches_nil : fetches.

(** ** More on the loop *)

Section LoopMore.

Context {A : Type}.
Variable try_block : Z -> Completion A.
Variable endpoint : string.
Variable retryCount : Z.
Variable after_loop : JsError.

Abbreviation loop := (retry_loop try_block endpoint retryCount after_loop).

(** Where the error of a run that ends with one comes from: the [try] block
    of attempt [retryCount] (or the [throw] after the loop, if that attempt
    said [continue]). *)
Lemma loop_reject (fuel : nat) (attempt : Z) (r : Run A) error :
  loop fuel attempt = Some r -> attempt <= retryCount ->
  outcome r = Some (inl error) ->
  fetches (trace r) = attempts_from attempt (Z.to_nat (retryCount - attempt + 1))
  /\ (try_block retryCount = Throw error
      \/ try_block retryCount = Continue /\ error = after_loop).
Proof.
  revert attempt r. induction fuel as [|fuel IH]; intros attempt r Hrun Hle Hout; [done|].
  destruct (loop_step _ _ _ _ _ _ _ Hrun Hle)
    as [(o & [[_ ->]|(data & _ & ->)] & ->)
       |[(error' & Htry & -> & ->)|(w & r1 & Hw & Hr1 & ->)]].
  - done.
  - done.
  - simpl in Hout. inversion Hout; subst error'. split; [|by left].
    simpl. autorewrite with fetches.
    by replace (retryCount - retryCount + 1) with 1 by lia.
  - simpl trace. rewrite (fetches_going_on _ _ _ _ _ Hw). simpl in Hout.
    destruct (decide (attempt = retryCount)) as [->|Hne].
    + rewrite (loop_past _ _ _ _ _ _ _ Hr1 ltac:(lia)) in Hout |- *.
      simpl in Hout. inversion Hout; subst error. simpl.
      replace (retryCount - retryCount + 1) with 1 by lia.
      split; [done|]. right. destruct Hw as [[Htry _]|(e & _ & Hn & _)]; done.
    + destruct (IH _ _ Hr1 ltac:(lia) Hout) as [Hf Hlast]. rewrite Hf.
      split; [|done].
      replace (Z.to_nat (retryCount - attempt + 1))
        with (S (Z.to_nat (retryCount - (attempt + 1) + 1))) by lia.
      done.
Qed.

(** A run that ends with a value got it from the [try] block of the last
    attempt it made. *)
Lemma loop_resolve (fuel : nat) (attempt : Z) (r : Run A) data :
  loop fuel attempt = Some r -> outcome r = Some (inr data) ->
  exists b, attempt <= b <= retryCount
            /\ try_block b = Return data
            /\ fetches (trace r) = attempts_from attempt (Z.to_nat (b - attempt + 1)).
Proof.
  revert attempt r. induction fuel as [|fuel IH]; intros attempt r Hrun Hout; [done|].
  destruct (Z.le_gt_cases attempt retryCount) as [Hle|Hgt];
    [|by rewrite (loop_past _ _ _ _ _ _ _ Hrun Hgt) in Hout].
  destruct (loop_step _ _ _ _ _ _ _ Hrun Hle)
    as [(o & [[_ ->]|(data' & Htry & ->)] & ->)
       |[(error' & _ & _ & ->)|(w & r1 & Hw & Hr1 & ->)]].
  - done.
  - simpl in Hout. inversion Hout; subst data'. exists attempt.
    split; [lia|]. split; [done|]. simpl.
    by replace (attempt - attempt + 1) with 1 by lia.
  - done.
  - destruct (IH _ _ Hr1 Hout) as (b & Hb & Htry & Hf). exists b.
    split; [lia|]. split; [done|].
    simpl trace. rewrite (fetches_going_on _ _ _ _ _ Hw), Hf.
    replace (Z.to_nat (b - attempt + 1))
      with (S (Z.to_nat (b - (attempt + 1) + 1))) by lia.
    done.
Qed.



End LoopMore.

(** ** More on the [try] blocks *)

Section TryMore.

Context {T : Type}.
Variable network : Z -> Exchange T.
Variables retryCount timeoutMs : Z.

Lemma request_try_rejected attempt error :
  await_fetch (network attempt) timeoutMs = Rejected error ->
  request_try network retryCount timeoutMs attempt = Throw error.
Proof. intros H. unfold request_try. by rewrite H. Qed.

Lemma requestBuffer_try_rejected attempt error :
  await_fetch (network attempt) timeoutMs = Rejected error ->
  requestBuffer_try network retryCount timeoutMs attempt = Throw error.
Proof. intros H. unfold requestBuffer_try. by rewrite H. Qed.




(** What the [try] blocks throw for an unsuccessful status on the last
    attempt. *)
Lemma request_try_last_not_ok response :
  await_fetch (network retryCount) timeoutMs = Fulfilled response ->
  ok response = false ->
  request_try network retryCount timeoutMs retryCount
  = Throw (match text response with
           | inl error => error
           | inr errorText => http_error (status response) errorText
           end).
Proof.
  intros Hf Hok. unfold request_try. rewrite Hf, Hok, Z.ltb_irrefl, andb_false_r.
  simpl. by destruct (text response).
Qed.

Lemma requestBuffer_try_last_not_ok response :
  await_fetch (network retryCount) timeoutMs = Fulfilled response ->
  ok response = false ->
  requestBuffer_try network retryCount timeoutMs retryCount
  = Throw (match text response with
           | inl error => error
           | inr errorText => http_error (status response) errorText
           end).
Proof.
  intros Hf Hok. unfold requestBuffer_try. rewrite Hf, Hok, Z.ltb_irrefl, andb_false_r.
  simpl. by destruct (text response).
Qed.

Lemma request_try_undecodable attempt response error :
  await_fetch (network attempt) timeoutMs = Fulfilled response ->
  ok response = true -> json response = inl error ->
  request_try network retryCount timeoutMs attempt = Throw error.
Proof. intros Hf Hok Hj. unfold request_try. by rewrite Hf, Hok, Hj. Qed.

Lemma requestBuffer_try_binary attempt response buffer :
  await_fetch (network attempt) timeoutMs = Fulfilled response ->
  ok response = true ->
  binary_content (default "" (contentType response)) = true ->
  arrayBuffer response = inr buffer ->
  requestBuffer_try network retryCount timeoutMs attempt = Return buffer.
Proof.
  intros Hf Hok Hct Hbuf. unfold requestBuffer_try. rewrite Hf, Hok. simpl.
  unfold binary_content in Hct. by rewrite Hct, Hbuf.
Qed.

(** What a [try] block that returns has seen. *)
Lemma request_try_Return attempt data :
  request_try network retryCount timeoutMs attempt = Return data ->
  exists response,
    await_fetch (network attempt) timeoutMs = Fulfilled response
    /\ ok response = true /\ json response = inr data.
Proof.
  unfold request_try.
  destruct (await_fetch _ _) as [response|response|error]; [| |done].
  - destruct (ok response) eqn:Hok; simpl.
    + destruct (json response) as [e|d] eqn:Hj; [done|].
      intros [= <-]. by exists response.
    + destruct (_ && _ && _); [done|]. by destruct (text response).
  - destruct (ok response); simpl; [done|]. by destruct (_ && _ && _).
Qed.

Lemma requestBuffer_try_Return attempt buffer :
  requestBuffer_try network retryCount timeoutMs attempt = Return buffer ->
  exists response,
    await_fetch (network attempt) timeoutMs = Fulfilled response
    /\ ok response = true
    /\ binary_content (default "" (contentType response)) = true
    /\ arrayBuffer response = inr buffer.
Proof.
  unfold requestBuffer_try, binary_content.
  destruct (await_fetch _ _) as [response|response|error]; [| |done].
  - destruct (ok response) eqn:Hok; simpl.
    + destruct (_ || _) eqn:Hct; [|done].
      destruct (arrayBuffer response) as [e|d] eqn:Hb; [done|].
      intros [= <-]. by exists response.
    + destruct (_ && _ && _); [done|]. by destruct (text response).
  - destruct (ok response); simpl; [by destruct (_ || _)|].
    by destruct (_ && _ && _).
Qed.



(** The [try] blocks only say [continue] before the last attempt. *)
Lemma request_try_Continue attempt :
  request_try network retryCount timeoutMs attempt = Continue -> attempt < retryCount.
Proof.
  unfold request_try.
  destruct (await_fetch _ _) as [response|response|error]; [| |done].
  - destruct (ok response); simpl; [by destruct (json response)|].
    destruct (_ && _ && _) eqn:Hc; [|by destruct (text response)].
    intros _. apply andb_true_iff in Hc as [_ Hc]. by apply Z.ltb_lt.
  - destruct (ok response); simpl; [done|].
    destruct (_ && _ && _) eqn:Hc; [|done].
    intros _. apply andb_true_iff in Hc as [_ Hc]. by apply Z.ltb_lt.
Qed.

Lemma requestBuffer_try_Continue attempt :
  requestBuffer_try network retryCount timeoutMs attempt = Continue ->
  attempt < retryCount.
Proof.
  unfold requestBuffer_try.
  destruct (await_fetch _ _) as [response|response|error]; [| |done].
  - destruct (ok response); simpl.
    + destruct (_ || _); [by destruct (arrayBuffer response)|done].
    + destruct (_ && _ && _) eqn:Hc; [|by destruct (text response)].
      intros _. apply andb_true_iff in Hc as [_ Hc]. by apply Z.ltb_lt.
  - destruct (ok response); simpl; [by destruct (_ || _)|].
    destruct (_ && _ && _) eqn:Hc; [|done].
    intros _. apply andb_true_iff in Hc as [_ Hc]. by apply Z.ltb_lt.
Qed.

End TryMore.

Lemma requestBuffer_try_unreadable {T} (network : Z -> Exchange T) retryCount
    timeoutMs attempt response error :
  await_fetch (network attempt) timeoutMs = Fulfilled response ->
  ok response = true ->
  binary_content (default "" (contentType response)) = true ->
  arrayBuffer response = inl error ->
  requestBuffer_try network retryCount timeoutMs attempt = Throw error.
Proof.
  intros Hf Hok Hct Hbuf. unfold requestBuffer_try. rewrite Hf, Hok. simpl.
  unfold binary_content in Hct. by rewrite Hct, Hbuf.
Qed.

(** The two calls, as runs of the loop. *)
Lemma request_run {T} (network : Z -> Exchange T) endpoint retryCount timeoutMs r :
  request network endpoint retryCount timeoutMs = Some r ->
  retry_loop (request_try network (default 3 retryCount) (default 10000 timeoutMs))
    endpoint (default 3 retryCount)
    (Error (failed_after endpoint (default 3 retryCount)))
    (S (Z.to_nat (default 3 retryCount))) 1 = Some r.
Proof. unfold request. cbv zeta. by rewrite request_loop_shape. Qed.

Lemma requestBuffer_run {T} (network : Z -> Exchange T) endpoint retryCount
    timeoutMs r :
  requestBuffer network endpoint retryCount timeoutMs = Some r ->
  retry_loop (requestBuffer_try network (default 3 retryCount) (default 10000 timeoutMs))
    endpoint (default 3 retryCount)
    (Error "Unknown error occurred in request retry logic.")
    (S (Z.to_nat (default 3 retryCount))) 1 = Some r.
Proof. unfold requestBuffer. cbv zeta. by rewrite requestBuffer_loop_shape. Qed.

(** ** [includes] *)

Lemma prefix_app (needle hay : string) :
  String.prefix needle hay = true <-> exists post, hay = needle +:+ post.
Proof.
  revert hay. induction needle as [|c needle IH]; intros hay.
  - split; [intros _; exists hay; reflexivity|intros _; by destruct hay].
  - destruct hay as [|c' hay].
    + split; [discriminate|]. intros [post H]. discriminate H.
    + simpl. destruct (Ascii.ascii_dec c c') as [->|Hne].
      * rewrite IH. split.
        -- intros [post ->]. exists post. reflexivity.
        -- intros [post H]. injection H as H. exists post. exact H.
      * split; [discriminate|]. intros [post H]. injection H as H1 H2. done.
Qed.

Lemma includes_app (needle hay : string) :
  includes needle hay = true <-> exists pre post, hay = pre +:+ needle +:+ post.
Proof.
  induction hay as [|c hay IH].
  - change (includes needle "") with (String.prefix needle "" || false).
    rewrite orb_false_r, prefix_app. split.
    + intros [post ->]. exists "", post. reflexivity.
    + intros (pre & post & H). destruct pre as [|c' pre]; [|discriminate H].
      exists post. exact H.
  - change (includes needle (String c hay))
      with (String.prefix needle (String c hay) || includes needle hay).
    rewrite orb_true_iff, prefix_app, IH. split.
    + intros [[post ->]|(pre & post & ->)]; [exists "", post; reflexivity|].
      exists (String c pre), post. reflexivity.
    + intros (pre & post & H). destruct pre as [|c' pre].
      * left. exists post. exact H.
      * right. injection H as H1 H2. exists pre, post. exact H2.
Qed.

(** ** Further properties of [request] and [requestBuffer] *)

(** X9: a call of [requestBuffer] makes at most [retryCount] attempts; and
    when an attempt is answered in time by a 2xx response with a binary
    content type whose body can be read, the call resolves with those bytes
    and that attempt is the last one. *)
Theorem requestBuffer_bounded_and_short_circuits {T} (network : Z -> Exchange T)
    (endpoint : string) (retryCount timeoutMs : option Z) :
  exists r, requestBuffer network endpoint retryCount timeoutMs = Some r
    /\ Z.of_nat (length (fetches (trace r))) <= Z.max 0 (default 3 retryCount)
    /\ forall b response buffer,
         b ∈ fetches (trace r) ->
         await_fetch (network b) (default 10000 timeoutMs) = Fulfilled response ->
         ok response = true ->
         binary_content (default "" (contentType response)) = true ->
         arrayBuffer response = inr buffer ->
         outcome r = Some (inr buffer)
         /\ fetches (trace r) = attempts_from 1 (Z.to_nat b).
Proof.
  destruct (requestBuffer_total network endpoint retryCount timeoutMs) as [r Hr].
  exists r. split; [done|]. apply requestBuffer_run in Hr. split.
  - destruct (loop_fetches _ _ _ _ _ _ _ Hr) as (n & -> & Hn).
    rewrite attempts_from_length. lia.
  - intros b response buffer Hb Hf Hok Hct Hbuf.
    pose proof (requestBuffer_try_binary network (default 3 retryCount)
                  _ _ _ _ Hf Hok Hct Hbuf) as Htry.
    destruct (loop_return_at _ _ _ _ _ _ _ _ _ Hr Hb Htry) as [Hout Hfs].
    by replace (Z.to_nat (b - 1 + 1)) with (Z.to_nat b) in Hfs by lia.
Qed.

Lemma requestBuffer_bounded_and_short_circuits_witness :
  exists r, requestBuffer (first_then resp503 resp200_png) "ai/flux" (Some 3) None = Some r
    /\ 2 ∈ fetches (trace r)
    /\ await_fetch (first_then resp503 resp200_png 2) (default 10000 None)
       = Fulfilled resp200_png
    /\ ok resp200_png = true
    /\ binary_content (default "" (contentType resp200_png)) = true
    /\ arrayBuffer resp200_png = inr [Byte.x89; Byte.x50]
    /\ outcome r = Some (inr [Byte.x89; Byte.x50])
    /\ fetches (trace r) = attempts_from 1 (Z.to_nat 2).
Proof.
  destruct (requestBuffer_bounded_and_short_circuits
              (first_then resp503 resp200_png) "ai/flux" (Some 3) None)
    as (r & Hr & _ & Hat).
  exists r. split; [exact Hr|].
  assert (H1 : 2 ∈ fetches (trace r)).
  { pose proof Hr as Hv. vm_compute in Hv. injection Hv as <-.
    apply elem_of_cons. right. apply elem_of_cons. by left. }
  assert (H2 : await_fetch (first_then resp503 resp200_png 2) (default 10000 None)
               = Fulfilled resp200_png) by reflexivity.
  assert (H3 : ok resp200_png = true) by reflexivity.
  assert (H4 : binary_content (default "" (contentType resp200_png)) = true)
    by reflexivity.
  assert (H5 : arrayBuffer resp200_png = inr [Byte.x89; Byte.x50]) by reflexivity.
  split; [exact H1|]. split; [exact H2|]. split; [exact H3|]. split; [exact H4|].
  split; [exact H5|].
  exact (Hat 2 resp200_png [Byte.x89; Byte.x50] H1 H2 H3 H4 H5).
Defined.

(** X10: with [retryCount] below 1 the loop body is never entered: [fetch]
    is not called and nothing is logged; [request] rejects with the
    "failed after ... attempts" error and [requestBuffer] with the "Unknown
    error" one. *)
Theorem no_attempt_when_retryCount_below_one {T} (network : Z -> Exchange T)
    (endpoint : string) (N : Z) (timeoutMs : option Z) :
  N < 1 ->
  request network endpoint (Some N) timeoutMs
  = Some {| outcome := Some (inl (Error (failed_after endpoint N))); trace := [] |}
  /\ requestBuffer network endpoint (Some N) timeoutMs
     = Some {| outcome := Some (inl (Error "Unknown error occurred in request retry logic."));
               trace := [] |}.
Proof.
  intros HN. unfold request, requestBuffer. simpl.
  by rewrite (proj2 (Z.leb_gt _ _)) by lia.
Qed.

Lemma no_attempt_when_retryCount_below_one_witness :
  0 < 1
  /\ request (always resp200_json) "ai/llama33" (Some 0) None
     = Some {| outcome := Some (inl (Error "API request to ai/llama33 failed after 0 attempts."));
               trace := [] |}
  /\ requestBuffer (always resp200_png) "ai/flux" (Some 0) None
     = Some {| outcome := Some (inl (Error "Unknown error occurred in request retry logic."));
               trace := [] |}.
Proof.
  assert (H1 : 0 < 1) by lia.
  split; [exact H1|]. split.
  - exact (proj1 (no_attempt_when_retryCount_below_one
                    (always resp200_json) "ai/llama33" 0 None H1)).
  - exact (proj2 (no_attempt_when_retryCount_below_one
                    (always resp200_png) "ai/flux" 0 None H1)).
Defined.

(** X11: when [retryCount] is a whole number [N >= 1], the error a call
    rejects with is never the one thrown after the loop: it is the error that
    the [try] block of an attempt the call made ended with (the HTTP error,
    the abort, a network failure or a decoding failure), in both functions.
    A [retryCount] that is not a whole number is the matter of
    [AnyRetryCount]. *)
Theorem rejection_comes_from_an_attempt {T} (network : Z -> Exchange T)
    (endpoint : string) (N : Z) (timeoutMs : option Z) :
  1 <= N ->
  (forall r error,
      request network endpoint (Some N) timeoutMs = Some r ->
      outcome r = Some (inl error) ->
      exists b, b ∈ fetches (trace r)
                /\ request_try network N (default 10000 timeoutMs) b = Throw error)
  /\ (forall r error,
        requestBuffer network endpoint (Some N) timeoutMs = Some r ->
        outcome r = Some (inl error) ->
        exists b, b ∈ fetches (trace r)
                  /\ requestBuffer_try network N (default 10000 timeoutMs) b
                     = Throw error).
Proof.
  intros HN. split; intros r error Hr Hout; exists N.
  - apply request_run in Hr. simpl default in Hr.
    destruct (loop_reject _ _ _ _ _ _ _ _ Hr HN Hout) as [Hf [Hthrow|[Hcont _]]].
    + split; [|done]. rewrite Hf. apply elem_of_attempts_from. lia.
    + apply request_try_Continue in Hcont. lia.
  - apply requestBuffer_run in Hr. simpl default in Hr.
    destruct (loop_reject _ _ _ _ _ _ _ _ Hr HN Hout) as [Hf [Hthrow|[Hcont _]]].
    + split; [|done]. rewrite Hf. apply elem_of_attempts_from. lia.
    + apply requestBuffer_try_Continue in Hcont. lia.
Qed.

Lemma rejection_comes_from_an_attempt_witness :
  1 <= 2
  /\ exists r, requestBuffer silent "ai/flux" (Some 2) None = Some r
       /\ outcome r = Some (inl AbortError)
       /\ exists b, b ∈ fetches (trace r)
                    /\ requestBuffer_try silent 2 (default 10000 None) b
                       = Throw AbortError.
Proof.
  assert (H1 : 1 <= 2) by lia.
  split; [exact H1|].
  destruct (requestBuffer_total silent "ai/flux" (Some 2) None) as [r Hr].
  exists r. split; [exact Hr|].
  assert (H2 : outcome r = Some (inl AbortError)).
  { pose proof Hr as Hv. vm_compute in Hv. injection Hv as <-. reflexivity. }
  split; [exact H2|].
  exact (proj2 (rejection_comes_from_an_attempt silent "ai/flux" 2 None H1)
           r AbortError Hr H2).
Defined.

(** X12: a value [request] resolves with is the decoded JSON body of a 2xx
    response that answered, in time, the last attempt made. *)
Theorem request_resolves_with_decoded_2xx {T} (network : Z -> Exchange T)
    (endpoint : string) (retryCount timeoutMs : option Z) (r : Run T) (data : T) :
  request network endpoint retryCount timeoutMs = Some r ->
  outcome r = Some (inr data) ->
  exists b response,
    1 <= b <= default 3 retryCount
    /\ fetches (trace r) = attempts_from 1 (Z.to_nat b)
    /\ await_fetch (network b) (default 10000 timeoutMs) = Fulfilled response
    /\ ok response = true
    /\ json response = inr data.
Proof.
  intros Hr Hout. apply request_run in Hr.
  destruct (loop_resolve _ _ _ _ _ _ _ _ Hr Hout) as (b & Hb & Htry & Hf).
  destruct (request_try_Return _ _ _ _ _ Htry) as (response & Hfu & Hok & Hj).
  exists b, response. split; [done|]. split; [|done].
  rewrite Hf. f_equal. lia.
Qed.

Lemma request_resolves_with_decoded_2xx_witness :
  exists r, request (first_then resp503 resp200_json) "ai/llama33" (Some 3) None = Some r
    /\ outcome r = Some (inr 42)
    /\ exists b response,
        1 <= b <= default 3 (Some 3)
        /\ fetches (trace r) = attempts_from 1 (Z.to_nat b)
        /\ await_fetch (first_then resp503 resp200_json b) (default 10000 None)
           = Fulfilled response
        /\ ok response = true
        /\ json response = inr 42.
Proof.
  destruct (request_total (first_then resp503 resp200_json) "ai/llama33" (Some 3) None)
    as [r Hr].
  exists r. split; [exact Hr|].
  assert (H1 : outcome r = Some (inr 42)).
  { pose proof Hr as Hv. vm_compute in Hv. injection Hv as <-. reflexivity. }
  split; [exact H1|].
  exact (request_resolves_with_decoded_2xx _ _ _ _ r 42 Hr H1).
Defined.

(** X13: the bytes [requestBuffer] resolves with are the body of a 2xx
    response whose [Content-Type] includes [application/octet-stream] or
    [image/], and which answered, in time, the last attempt made: bytes of a
    response of another content type are never returned. *)
Theorem requestBuffer_resolves_with_binary_2xx {T} (network : Z -> Exchange T)
    (endpoint : string) (retryCount timeoutMs : option Z)
    (r : Run (list Byte.byte)) (buffer : list Byte.byte) :
  requestBuffer network endpoint retryCount timeoutMs = Some r ->
  outcome r = Some (inr buffer) ->
  exists b response,
    1 <= b <= default 3 retryCount
    /\ fetches (trace r) = attempts_from 1 (Z.to_nat b)
    /\ await_fetch (network b) (default 10000 timeoutMs) = Fulfilled response
    /\ ok response = true
    /\ binary_content (default "" (contentType response)) = true
    /\ arrayBuffer response = inr buffer.
Proof.
  intros Hr Hout. apply requestBuffer_run in Hr.
  destruct (loop_resolve _ _ _ _ _ _ _ _ Hr Hout) as (b & Hb & Htry & Hf).
  destruct (requestBuffer_try_Return _ _ _ _ _ Htry)
    as (response & Hfu & Hok & Hct & Hbuf).
  exists b, response. split; [done|]. split; [|done].
  rewrite Hf. f_equal. lia.
Qed.

Lemma requestBuffer_resolves_with_binary_2xx_witness :
  exists r, requestBuffer (first_then resp200_html resp200_png) "ai/flux" (Some 2) None
            = Some r
    /\ outcome r = Some (inr [Byte.x89; Byte.x50])
    /\ exists b response,
        1 <= b <= default 3 (Some 2)
        /\ fetches (trace r) = attempts_from 1 (Z.to_nat b)
        /\ await_fetch (first_then resp200_html resp200_png b) (default 10000 None)
           = Fulfilled response
        /\ ok response = true
        /\ binary_content (default "" (contentType response)) = true
        /\ arrayBuffer response = inr [Byte.x89; Byte.x50].
Proof.
  destruct (requestBuffer_total (first_then resp200_html resp200_png) "ai/flux"
              (Some 2) None) as [r Hr].
  exists r. split; [exact Hr|].
  assert (H1 : outcome r = Some (inr [Byte.x89; Byte.x50])).
  { pose proof Hr as Hv. vm_compute in Hv. injection Hv as <-. reflexivity. }
  split; [exact H1|].
  exact (requestBuffer_resolves_with_binary_2xx _ _ _ _ r _ Hr H1).
Defined.



(** X15: when the last attempt is answered in time by a response with an
    unsuccessful status whose body text can be read, the call rejects with
    the error "HTTP error! Status: ..., Body: ..." built from that status and
    body, in both functions. *)
Theorem http_error_on_the_last_attempt {T} (network : Z -> Exchange T)
    (endpoint : string) (retryCount timeoutMs : option Z) :
  (forall r response errorText,
      request network endpoint retryCount timeoutMs = Some r ->
      default 3 retryCount ∈ fetches (trace r) ->
      await_fetch (network (default 3 retryCount)) (default 10000 timeoutMs)
      = Fulfilled response ->
      ok response = false ->
      text response = inr errorText ->
      outcome r = Some (inl (http_error (status response) errorText)))
  /\ (forall r response errorText,
        requestBuffer network endpoint retryCount timeoutMs = Some r ->
        default 3 retryCount ∈ fetches (trace r) ->
        await_fetch (network (default 3 retryCount)) (default 10000 timeoutMs)
        = Fulfilled response ->
        ok response = false ->
        text response = inr errorText ->
        outcome r = Some (inl (http_error (status response) errorText))).
Proof.
  split; intros r response errorText Hr Hb Hf Hok Htext.
  - apply request_run in Hr.
    pose proof (request_try_last_not_ok network _ _ _ Hf Hok) as Htry.
    rewrite Htext in Htry.
    exact (proj2 (proj2 (loop_throw_at _ _ _ _ _ _ _ _ _ Hr Hb Htry)) eq_refl).
  - apply requestBuffer_run in Hr.
    pose proof (requestBuffer_try_last_not_ok network _ _ _ Hf Hok) as Htry.
    rewrite Htext in Htry.
    exact (proj2 (proj2 (loop_throw_at _ _ _ _ _ _ _ _ _ Hr Hb Htry)) eq_refl).
Qed.

Lemma http_error_on_the_last_attempt_witness :
  exists r, requestBuffer (first_then resp503 resp404) "ai/flux" (Some 2) None = Some r
    /\ default 3 (Some 2) ∈ fetches (trace r)
    /\ await_fetch (first_then resp503 resp404 (default 3 (Some 2))) (default 10000 None)
       = Fulfilled resp404
    /\ ok resp404 = false
    /\ text resp404 = inr "Not Found"
    /\ outcome r = Some (inl (http_error (status resp404) "Not Found")).
Proof.
  destruct (requestBuffer_total (first_then resp503 resp404) "ai/flux" (Some 2) None)
    as [r Hr].
  exists r. split; [exact Hr|].
  assert (H1 : default 3 (Some 2) ∈ fetches (trace r)).
  { pose proof Hr as Hv. vm_compute in Hv. injection Hv as <-.
    apply elem_of_cons. right. apply elem_of_cons. by left. }
  assert (H2 : await_fetch (first_then resp503 resp404 (default 3 (Some 2)))
                 (default 10000 None) = Fulfilled resp404) by reflexivity.
  assert (H3 : ok resp404 = false) by reflexivity.
  assert (H4 : text resp404 = inr "Not Found") by reflexivity.
  split; [exact H1|]. split; [exact H2|]. split; [exact H3|]. split; [exact H4|].
  exact (proj2 (http_error_on_the_last_attempt (first_then resp503 resp404)
                  "ai/flux" (Some 2) None) r resp404 "Not Found" Hr H1 H2 H3 H4).
Defined.

(** X16: when [fetch] itself rejects at an attempt (a network failure, or
    the abort), the [catch] block logs the attempt, the next attempt is made
    when attempts remain, and on the last attempt the call rejects with that
    same error, in both functions. *)
Theorem fetch_rejection_is_retried_then_propagates {T} (network : Z -> Exchange T)
    (endpoint : string) (retryCount timeoutMs : option Z) :
  (forall r b error,
      request network endpoint retryCount timeoutMs = Some r ->
      b ∈ fetches (trace r) ->
      await_fetch (network b) (default 10000 timeoutMs) = Rejected error ->
      warn_caught b error ∈ trace r
      /\ (b < default 3 retryCount -> (b + 1) ∈ fetches (trace r))
      /\ (b = default 3 retryCount -> outcome r = Some (inl error)))
  /\ (forall r b error,
        requestBuffer network endpoint retryCount timeoutMs = Some r ->
        b ∈ fetches (trace r) ->
        await_fetch (network b) (default 10000 timeoutMs) = Rejected error ->
        warn_caught b error ∈ trace r
        /\ (b < default 3 retryCount -> (b + 1) ∈ fetches (trace r))
        /\ (b = default 3 retryCount -> outcome r = Some (inl error))).
Proof.
  split; intros r b error Hr Hb Hf.
  - apply request_run in Hr.
    exact (loop_throw_at _ _ _ _ _ _ _ _ _ Hr Hb
             (request_try_rejected network _ _ _ _ Hf)).
  - apply requestBuffer_run in Hr.
    exact (loop_throw_at _ _ _ _ _ _ _ _ _ Hr Hb
             (requestBuffer_try_rejected network _ _ _ _ Hf)).
Qed.

Lemma fetch_rejection_is_retried_then_propagates_witness :
  exists r, request unreachable "ai/llama33" (Some 2) None = Some r
    /\ 2 ∈ fetches (trace r)
    /\ await_fetch (unreachable 2) (default 10000 None) = Rejected fetch_failed
    /\ 2 = default 3 (Some 2)
    /\ outcome r = Some (inl fetch_failed).
Proof.
  destruct (request_total unreachable "ai/llama33" (Some 2) None) as [r Hr].
  exists r. split; [exact Hr|].
  assert (H1 : 2 ∈ fetches (trace r)).
  { pose proof Hr as Hv. vm_compute in Hv. injection Hv as <-.
    apply elem_of_cons. right. apply elem_of_cons. by left. }
  assert (H2 : await_fetch (unreachable 2) (default 10000 None) = Rejected fetch_failed)
    by reflexivity.
  assert (H3 : 2 = default 3 (Some 2)) by reflexivity.
  split; [exact H1|]. split; [exact H2|]. split; [exact H3|].
  exact (proj2 (proj2 (proj1 (fetch_rejection_is_retried_then_propagates
                                unreachable "ai/llama33" (Some 2) None)
                         r 2 fetch_failed Hr H1 H2)) H3).
Defined.

(** X17: a 2xx response whose body cannot be decoded ([response.json()]
    rejects in [request]; [response.arrayBuffer()] rejects in
    [requestBuffer]) is handled as a failed attempt: logged, retried when
    attempts remain, and on the last attempt the call rejects with the
    decoding error. *)
Theorem undecodable_body_is_retried_then_propagates {T} (network : Z -> Exchange T)
    (endpoint : string) (retryCount timeoutMs : option Z) :
  (forall r b response error,
      request network endpoint retryCount timeoutMs = Some r ->
      b ∈ fetches (trace r) ->
      await_fetch (network b) (default 10000 timeoutMs) = Fulfilled response ->
      ok response = true ->
      json response = inl error ->
      warn_caught b error ∈ trace r
      /\ (b < default 3 retryCount -> (b + 1) ∈ fetches (trace r))
      /\ (b = default 3 retryCount -> outcome r = Some (inl error)))
  /\ (forall r b response error,
        requestBuffer network endpoint retryCount timeoutMs = Some r ->
        b ∈ fetches (trace r) ->
        await_fetch (network b) (default 10000 timeoutMs) = Fulfilled response ->
        ok response = true ->
        binary_content (default "" (contentType response)) = true ->
        arrayBuffer response = inl error ->
        warn_caught b error ∈ trace r
        /\ (b < default 3 retryCount -> (b + 1) ∈ fetches (trace r))
        /\ (b = default 3 retryCount -> outcome r = Some (inl error))).
Proof.
  split.
  - intros r b response error Hr Hb Hf Hok Hj. apply request_run in Hr.
    exact (loop_throw_at _ _ _ _ _ _ _ _ _ Hr Hb
             (request_try_undecodable network _ _ _ _ _ Hf Hok Hj)).
  - intros r b response error Hr Hb Hf Hok Hct Hbuf. apply requestBuffer_run in Hr.
    exact (loop_throw_at _ _ _ _ _ _ _ _ _ Hr Hb
             (requestBuffer_try_unreadable network _ _ _ _ _ Hf Hok Hct Hbuf)).
Qed.

Lemma undecodable_body_is_retried_then_propagates_witness :
  exists r, request (first_then resp200_html resp200_json) "ai/llama33" (Some 2) None
            = Some r
    /\ 1 ∈ fetches (trace r)
    /\ await_fetch (first_then resp200_html resp200_json 1) (default 10000 None)
       = Fulfilled resp200_html
    /\ ok resp200_html = true
    /\ json resp200_html = inl syntax_error
    /\ 1 < default 3 (Some 2)
    /\ (1 + 1) ∈ fetches (trace r).
Proof.
  destruct (request_total (first_then resp200_html resp200_json) "ai/llama33"
              (Some 2) None) as [r Hr].
  exists r. split; [exact Hr|].
  assert (H1 : 1 ∈ fetches (trace r)).
  { pose proof Hr as Hv. vm_compute in Hv. injection Hv as <-.
    apply elem_of_cons. by left. }
  assert (H2 : await_fetch (first_then resp200_html resp200_json 1) (default 10000 None)
               = Fulfilled resp200_html) by reflexivity.
  assert (H3 : ok resp200_html = true) by reflexivity.
  assert (H4 : json resp200_html = inl syntax_error) by reflexivity.
  assert (H5 : 1 < default 3 (Some 2)) by (simpl; lia).
  split; [exact H1|]. split; [exact H2|]. split; [exact H3|]. split; [exact H4|].
  split; [exact H5|].
  exact (proj1 (proj2 (proj1 (undecodable_body_is_retried_then_propagates
                                (first_then resp200_html resp200_json)
                                "ai/llama33" (Some 2) None)
                         r 1 resp200_html syntax_error Hr H1 H2 H3 H4)) H5).
Defined.



(** X20: [setTimeout] replaces a delay below 1 or above 2147483647 by 1 ms:
    with such a [timeoutMs], an attempt whose [fetch] takes 1 ms or more to
    settle is aborted, also when it settles within [timeoutMs]. *)
Theorem out_of_range_timeout_aborts_at_once {T} (network : Z -> Exchange T)
    (retryCount timeoutMs attempt ms : Z) (s : Settlement T) :
  timeoutMs < 1 \/ 2147483647 < timeoutMs ->
  network attempt = Settles ms s ->
  1 <= ms ->
  request_try network retryCount timeoutMs attempt = Throw AbortError
  /\ requestBuffer_try network retryCount timeoutMs attempt = Throw AbortError.
Proof.
  intros Hout Hnet Hms.
  assert (Hto : timed_out (network attempt) timeoutMs = true).
  { rewrite Hnet. unfold timed_out, timer_delay. apply Z.leb_le.
    destruct (_ && _) eqn:Hin; [|lia].
    apply andb_true_iff in Hin as [H1 H2].
    apply Z.leb_le in H1. apply Z.leb_le in H2. lia. }
  split; [by apply request_try_timed_out|by apply requestBuffer_try_timed_out].
Qed.

(** A response after 20 ms with a timeout of 3000000000 ms. *)
Lemma out_of_range_timeout_aborts_at_once_witness :
  (3000000000 < 1 \/ 2147483647 < 3000000000)
  /\ always resp200_json 1 = Settles 20 (Fulfilled resp200_json)
  /\ 1 <= 20
  /\ request_try (always resp200_json) 3 3000000000 1 = Throw AbortError
  /\ requestBuffer_try (always resp200_json) 3 3000000000 1 = Throw AbortError.
Proof.
  assert (H1 : 3000000000 < 1 \/ 2147483647 < 3000000000) by (right; lia).
  assert (H2 : always resp200_json 1 = Settles 20 (Fulfilled resp200_json))
    by reflexivity.
  assert (H3 : 1 <= 20) by lia.
  split; [exact H1|]. split; [exact H2|]. split; [exact H3|].
  exact (out_of_range_timeout_aborts_at_once (always resp200_json) 3 3000000000 1 20
           (Fulfilled resp200_json) H1 H2 H3).
Defined.

(** X18: the content-type test of [requestBuffer] accepts exactly the values
    that contain [application/octet-stream] or [image/] somewhere, whatever
    comes before or after; a response without a [Content-Type] header does
    not pass it. *)
Theorem binary_content_is_substring_test :
  (forall contentType,
      binary_content contentType = true
      <-> exists pre post,
            contentType = pre +:+ "application/octet-stream" +:+ post
            \/ contentType = pre +:+ "image/" +:+ post)
  /\ binary_content (default "" None) = false.
Proof.
  split; [|reflexivity]. intros contentType. unfold binary_content.
  rewrite orb_true_iff, !includes_app. split.
  - intros [(pre & post & H)|(pre & post & H)]; exists pre, post; auto.
  - intros (pre & post & [H|H]); [left|right]; by exists pre, post.
Qed.

End FetcherMore.


(* ===================================================================== *)
(** * Facts about a [retryCount] that is any number *)
(* ===================================================================== *)

Module AnyRetryCountFacts.
Import Fetcher FetcherFacts Scenarios AnyRetryCount.
Import QArith_base.
Local Open Scope Z_scope.

#[local] Arguments fetches : simpl never.
#[local] Hint Rewrite fetches_app fetches_fetch fetches_warn_caught fetches_warn
  fetches_error fetches_nil : fetches.

(** ** The three tests on a whole [retryCount] *)




(** ** The loop test on any [retryCount] *)




Section Whole.

Context {T : Type}.
Variable network : Z -> Exchange T.
Variable endpoint : string.
Variable N timeoutMs : Z.
Variable toString : Q -> string.
Hypothesis toString_whole : toString (inject_Z N) = pretty N.






End Whole.




(** ** A [retryCount] that is not a whole number *)

Section NotWhole.

Context {T : Type}.
Variable network : Z -> Exchange T.
Variable endpoint : string.
Variable retryCount : Q.
Variable timeoutMs : Z.
Variable toString : Q -> string.
Hypothesis not_whole : forall n : Z, ~ (inject_Z n == retryCount)%Q.




End NotWhole.



End AnyRetryCountFacts.
